(** * deno-kv-plus: optimistic multi-key updates over Deno KV

    A shallow embedding of [src/mod.ts] ([setSafeAtomicMany] and
    [setSafeAtomic]) together with the part of the Deno KV contract the two
    functions rely on ([getMany], [atomic().check().set().commit()]).

    Modelling decisions:
    - JavaScript values are trees ([JsValue]); numbers are integers, so the
      retry count is an integer.
    - The arrays the function allocates ([resultValues] and its
      [structuredClone]) live in a [heap] of array cells, so that the in-place
      mutation performed by the callback and the aliasing between the two
      arrays are explicit. Values inside a cell are copied by value, which is
      what a deep clone of serializable data does.
    - The callback is an arbitrary stateful function: it sees the array it is
      given and its own closure state, may call [abort] any number of times,
      may overwrite the array in place and may return any value, the array
      itself included.
    - Other clients of the database are a script of write batches; one batch
      is delivered at every [await] of a backend operation.
    - Every read, callback invocation and commit of a call is appended to a
      [trace].
    - [async] recursion is bounded by a [fuel] argument; a non-negative retry
      count never exhausts it ([setSafeAtomicMany_total]).
    - Exceptions raised by the backend or by the callback itself are outside
      the model. *)

From stdpp Require Import base decidable option list strings numbers countable gmap pretty.

Set Warnings "-register-all".

Open Scope string_scope.
Open Scope list_scope.
Open Scope Z_scope.

(** ** JavaScript values *)

Inductive JsValue : Type :=
  | JUndefined
  | JNull
  | JBool (b : bool)
  | JNum (n : Z)
  | JStr (s : string)
  | JArr (xs : list JsValue)
  | JObj (fields : list (string * JsValue)).

(** [!!v] of JavaScript: everything is truthy but [undefined], [null],
    [false], [0] and the empty string. *)
Definition truthy (v : JsValue) : bool :=
  match v with
  | JUndefined | JNull => false
  | JBool b => b
  | JNum n => negb (n =? 0)
  | JStr s => negb (String.eqb s "")
  | JArr _ | JObj _ => true
  end.

Fixpoint get_field (name : string) (fields : list (string * JsValue)) : JsValue :=
  match fields with
  | [] => JUndefined
  | (k, v) :: rest => if String.eqb k name then v else get_field name rest
  end.

(** [v.length] *)
Definition get_length (v : JsValue) : JsValue :=
  match v with
  | JArr xs => JNum (Z.of_nat (length xs))
  | JStr s => JNum (Z.of_nat (String.length s))
  | JObj fields => get_field "length" fields
  | _ => JUndefined
  end.

(** [v[i]] for a non-negative integer [i] *)
Definition get_index (v : JsValue) (i : nat) : JsValue :=
  match v with
  | JArr xs => default JUndefined (xs !! i)
  | JStr s =>
      match String.get i s with
      | Some c => JStr (String c EmptyString)
      | None => JUndefined
      end
  | JObj fields => get_field (pretty (N.of_nat i)) fields
  | _ => JUndefined
  end.

(** [v !== n] where [n] is a number *)
Definition strict_neq_num (v : JsValue) (n : Z) : bool :=
  match v with
  | JNum m => negb (m =? n)
  | _ => true
  end.

(** ** The Deno KV backend *)

Inductive KeyPart : Type :=
  | KStr (s : string)
  | KNum (n : Z)
  | KBool (b : bool).

#[global] Instance KeyPart_eq_dec : EqDecision KeyPart.
Proof. solve_decision. Defined.

#[global] Instance KeyPart_countable : Countable KeyPart.
Proof.
  refine (inj_countable'
    (fun p => match p with
              | KStr s => inl s
              | KNum n => inr (inl n)
              | KBool b => inr (inr b)
              end)
    (fun c => match c with
              | inl s => KStr s
              | inr (inl n) => KNum n
              | inr (inr b) => KBool b
              end) _).
  intros []; reflexivity.
Defined.

Definition Key : Type := list KeyPart.
Definition Versionstamp : Type := nat.

(** [Deno.KvEntryMaybe]: an absent entry has value [null] and versionstamp
    [null]. *)
Record KvEntryMaybe : Type := mkEntry {
  key : Key;
  value : JsValue;
  versionstamp : option Versionstamp
}.

Record Db : Type := mkDb {
  rows : gmap Key (JsValue * Versionstamp);
  clock : Versionstamp
}.

Definition kv_get (d : Db) (k : Key) : KvEntryMaybe :=
  match rows d !! k with
  | Some (v, vs) => mkEntry k v (Some vs)
  | None => mkEntry k JNull None
  end.

Definition kv_getMany (d : Db) (keys : list Key) : list KvEntryMaybe :=
  map (kv_get d) keys.

(** [Deno.AtomicOperation]: the checks and mutations queued so far. *)
Inductive TxOp : Type :=
  | OpCheck (k : Key) (vs : option Versionstamp)
  | OpSet (k : Key) (v : JsValue).

Definition AtomicOperation : Type := list TxOp.

Definition atomic : AtomicOperation := [].

Definition tx_check (tx : AtomicOperation) (e : KvEntryMaybe) : AtomicOperation :=
  tx ++ [OpCheck (key e) (versionstamp e)].

Definition tx_set (tx : AtomicOperation) (k : Key) (v : JsValue) : AtomicOperation :=
  tx ++ [OpSet k v].

Definition check_holds (d : Db) (op : TxOp) : bool :=
  match op with
  | OpCheck k vs => bool_decide (snd <$> rows d !! k = vs)
  | OpSet _ _ => true
  end.

Definition apply_mutation (vs : Versionstamp)
    (r : gmap Key (JsValue * Versionstamp)) (op : TxOp) : gmap Key (JsValue * Versionstamp) :=
  match op with
  | OpCheck _ _ => r
  | OpSet k v => <[k := (v, vs)]> r
  end.

(** [commit()]: every check is compared with the database as it is now; if
    all hold, all mutations are applied under one new versionstamp. *)
Definition kv_commit (d : Db) (tx : AtomicOperation) : bool * Db :=
  if forallb (check_holds d) tx
  then (true, mkDb (foldl (apply_mutation (S (clock d))) (rows d) tx) (S (clock d)))
  else (false, d).

(** Writes of other clients: [Some v] stores [v], [None] deletes. *)
Definition Write : Type := Key * option JsValue.

Definition other_write (d : Db) (w : Write) : Db :=
  match w with
  | (k, Some v) => mkDb (<[k := (v, S (clock d))]> (rows d)) (S (clock d))
  | (k, None) => mkDb (delete k (rows d)) (S (clock d))
  end.

Definition interfere (d : Db) (batch : list Write) : Db :=
  foldl other_write d batch.

(** Replaying several batches, one after the other. *)
Definition replay (d : Db) (batches : list (list Write)) : Db :=
  foldl interfere d batches.

(** ** The callback *)

(** What the callback hands back: the very array it was given, or some other
    value. *)
Inductive TReturn : Type :=
  | RetArg
  | RetVal (v : JsValue).

Record TransformRun (C : Type) : Type := mkRun {
  tr_aborts : list (option string);
  tr_mutated : list JsValue;
  tr_return : TReturn;
  tr_state : C
}.
Arguments mkRun {C} _ _ _ _.
Arguments tr_aborts {C} _.
Arguments tr_mutated {C} _.
Arguments tr_return {C} _.
Arguments tr_state {C} _.

Definition Transform (C : Type) : Type := C -> list JsValue -> TransformRun C.

Definition resolve {C : Type} (r : TransformRun C) : JsValue :=
  match tr_return r with
  | RetArg => JArr (tr_mutated r)
  | RetVal v => v
  end.

(** ** Observable events of one call *)

Inductive Event : Type :=
  | EvGetMany (keys : list Key) (results : list KvEntryMaybe)
  | EvUpdate (values mutated : list JsValue) (aborts : list (option string))
      (returned : JsValue)
  | EvCommit (tx : AtomicOperation) (ok : bool).

(** ** Program state and the monad of [async] functions *)

Definition Loc : Type := nat.

Record State (C : Type) : Type := mkState {
  db : Db;
  others : list (list Write);
  heap : list (list JsValue);
  closure : C;
  trace : list Event
}.
Arguments mkState {C} _ _ _ _ _.
Arguments db {C} _.
Arguments others {C} _.
Arguments heap {C} _.
Arguments closure {C} _.
Arguments trace {C} _.

Inductive Outcome (A : Type) : Type :=
  | Returned (a : A)
  | Threw (msg : string)
  | Diverged.
Arguments Returned {A} _.
Arguments Threw {A} _.
Arguments Diverged {A}.

Definition M (C A : Type) : Type := State C -> Outcome A * State C.

Definition ret {C A : Type} (a : A) : M C A := fun st => (Returned a, st).

Definition throw {C A : Type} (msg : string) : M C A := fun st => (Threw msg, st).

Definition diverge {C A : Type} : M C A := fun st => (Diverged, st).

Definition bind {C A B : Type} (m : M C A) (k : A -> M C B) : M C B :=
  fun st =>
    match m st with
    | (Returned a, st') => k a st'
    | (Threw msg, st') => (Threw msg, st')
    | (Diverged, st') => (Diverged, st')
    end.

Notation "'let!' x ':=' m 'in' k" := (bind m (fun x => k))
  (at level 10, x name, m at level 100, k at level 200).

Definition emit {C : Type} (e : Event) : M C unit :=
  fun st => (Returned tt, mkState (db st) (others st) (heap st) (closure st) (trace st ++ [e])).

(** Every [await] of a backend operation lets the next batch of foreign
    writes reach the database first. *)
Definition await_turn {C : Type} : M C unit :=
  fun st =>
    match others st with
    | [] => (Returned tt, st)
    | batch :: rest =>
        (Returned tt, mkState (interfere (db st) batch) rest (heap st) (closure st) (trace st))
    end.

Definition getMany {C : Type} (keys : list Key) : M C (list KvEntryMaybe) :=
  let! _ := await_turn in
  let! results := (fun st => (Returned (kv_getMany (db st) keys), st)) in
  let! _ := emit (EvGetMany keys results) in
  ret results.

Definition commit {C : Type} (tx : AtomicOperation) : M C bool :=
  let! _ := await_turn in
  let! ok := (fun st =>
                let '(ok, d) := kv_commit (db st) tx in
                (Returned ok, mkState d (others st) (heap st) (closure st) (trace st))) in
  let! _ := emit (EvCommit tx ok) in
  ret ok.

(** A new array object. *)
Definition alloc {C : Type} (xs : list JsValue) : M C Loc :=
  fun st => (Returned (length (heap st)),
             mkState (db st) (others st) (heap st ++ [xs]) (closure st) (trace st)).

Definition deref {C : Type} (l : Loc) : M C (list JsValue) :=
  fun st => (Returned (default [] (heap st !! l)), st).

(** [structuredClone(a)] of an array: a new array object with a copy of the
    contents. *)
Definition structuredClone {C : Type} (l : Loc) : M C Loc :=
  let! xs := deref l in alloc xs.

(** Calling the callback on the array at [l]: the callback runs on its
    closure state and the contents of the array, which it may overwrite. *)
Definition call {C : Type} (f : Transform C) (l : Loc) : M C (list (option string) * JsValue) :=
  fun st =>
    let args := default [] (heap st !! l) in
    let r := f (closure st) args in
    (Returned (tr_aborts r, resolve r),
     mkState (db st) (others st) (<[l := tr_mutated r]> (heap st)) (tr_state r)
             (trace st ++ [EvUpdate args (tr_mutated r) (tr_aborts r) (resolve r)])).

(** ** [src/mod.ts] *)

Record SafeAtomicManyResponse : Type := mkMany {
  ok : bool;
  error : option string;
  values : JsValue
}.

Module Single.
Record SafeAtomicSingleResponse : Type := mkSingle {
  ok : bool;
  error : option string;
  value : JsValue
}.
End Single.

(** The two variables captured by the [abort] closure. *)
Record AbortFlag : Type := mkFlag {
  aborting : bool;
  abortReason : option string
}.

(** [const abort = (reason?: string) => { aborting = true; if (reason)
    abortReason = reason; }] *)
Definition abort (reason : option string) (a : AbortFlag) : AbortFlag :=
  mkFlag true
    (match reason with
     | Some r => if truthy (JStr r) then Some r else abortReason a
     | None => abortReason a
     end).

Definition run_aborts (calls : list (option string)) : AbortFlag :=
  foldl (fun a reason => abort reason a) (mkFlag false None) calls.

(** [for (let i = 0; i !== updatedValues.length; i++) { tx.check(results[i]);
    tx.set(results[i].key, updatedValues[i]); }], entered only when
    [updatedValues.length === results.length]. *)
Definition build_tx (results : list KvEntryMaybe) (updatedValues : JsValue) : AtomicOperation :=
  foldl (fun tx i =>
           match results !! i with
           | Some r => tx_set (tx_check tx r) (key r) (get_index updatedValues i)
           | None => tx
           end)
        atomic (seq 0 (length results)).

Definition err_no_array : string :=
  "updateValues must return an array of values to update".

Definition err_count : string :=
  "The number of resuts returned from the update callback must match the number of keys".

Definition err_commit : string := "Failed to commit transaction".

Fixpoint setSafeAtomicMany {C : Type} (fuel : nat) (keys : list Key)
    (updateValues : Transform C) (retryCount : option Z) : M C SafeAtomicManyResponse :=
  match fuel with
  | O => diverge
  | S fuel' =>
      let retryCount := default 10 retryCount in
      let! results := getMany keys in
      let! resultValues := alloc (map value results) in
      let! originalResultValues := structuredClone resultValues in
      let! called := call updateValues resultValues in
      let flag := run_aborts (fst called) in
      let updatedValues := snd called in
      if aborting flag then
        let! original := deref originalResultValues in
        ret (mkMany false (abortReason flag) (JArr original))
      else if negb (truthy updatedValues) then throw err_no_array
      else if strict_neq_num (get_length updatedValues) (Z.of_nat (length results))
      then throw err_count
      else
        let tx := build_tx results updatedValues in
        let! committed := commit tx in
        if committed then ret (mkMany committed None updatedValues)
        else if retryCount =? 0 then
          let! original := deref originalResultValues in
          ret (mkMany committed (Some err_commit) (JArr original))
        else setSafeAtomicMany fuel' keys updateValues (Some (retryCount - 1))
  end.

(** The callback of the single-key operation: it is handed one value, which
    it may mutate in place when it is an object. *)
Record SingleRun (C : Type) : Type := mkSingleRun {
  sr_aborts : list (option string);
  sr_mutated : JsValue;
  sr_return : JsValue;
  sr_state : C
}.
Arguments mkSingleRun {C} _ _ _ _.
Arguments sr_aborts {C} _.
Arguments sr_mutated {C} _.
Arguments sr_return {C} _.
Arguments sr_state {C} _.

Definition SingleTransform (C : Type) : Type := C -> JsValue -> SingleRun C.

(** [(values, abort) => [updateValue(values[0], abort)]] *)
Definition wrap_single {C : Type} (updateValue : SingleTransform C) : Transform C :=
  fun c vals =>
    let r := updateValue c (get_index (JArr vals) 0) in
    mkRun (sr_aborts r) (<[0%nat := sr_mutated r]> vals) (RetVal (JArr [sr_return r])) (sr_state r).

Definition setSafeAtomic {C : Type} (fuel : nat) (k : Key)
    (updateValue : SingleTransform C) (retryCount : option Z)
    : M C Single.SafeAtomicSingleResponse :=
  let! response := setSafeAtomicMany fuel [k] (wrap_single updateValue) retryCount in
  ret (Single.mkSingle (ok response) (error response) (get_index (values response) 0)).

(** ** One pass through the body, seen as the state machine of the design *)

(** How one pass ends. [Conflict] is the only case in which the function
    looks at its retry count. *)
Inductive AttemptResult : Type :=
  | Committed (newValues : JsValue)
  | Aborted (reason : option string) (originalValues : list JsValue)
  | Conflict (originalValues : list JsValue)
  | ComputeError (msg : string).

(** The database and the pending foreign batches once the next [await] has
    been served. *)
Definition deliver (d : Db) (pending : list (list Write)) : Db * list (list Write) :=
  match pending with
  | [] => (d, [])
  | batch :: rest => (interfere d batch, rest)
  end.

(** The pass written out without the monad; [setSafeAtomicMany_unfold] below
    proves that this is what the body of [setSafeAtomicMany] computes. *)
Definition attempt {C : Type} (keys : list Key) (f : Transform C) (st : State C)
    : AttemptResult * State C :=
  let read := deliver (db st) (others st) in
  let results := kv_getMany (fst read) keys in
  let vals := map value results in
  let r := f (closure st) vals in
  let flag := run_aborts (tr_aborts r) in
  let upd := resolve r in
  let h := heap st ++ [tr_mutated r; vals] in
  let t := trace st ++
           [EvGetMany keys results; EvUpdate vals (tr_mutated r) (tr_aborts r) upd] in
  let st1 := mkState (fst read) (snd read) h (tr_state r) t in
  if aborting flag then (Aborted (abortReason flag) vals, st1)
  else if negb (truthy upd) then (ComputeError err_no_array, st1)
  else if strict_neq_num (get_length upd) (Z.of_nat (length results))
  then (ComputeError err_count, st1)
  else
    let tx := build_tx results upd in
    let served := deliver (fst read) (snd read) in
    let done := kv_commit (fst served) tx in
    let st2 := mkState (snd done) (snd served) h (tr_state r) (t ++ [EvCommit tx (fst done)]) in
    if fst done then (Committed upd, st2) else (Conflict vals, st2).

(** What the caller gets for the way a pass ended. *)
Definition respond {C : Type} (fuel : nat) (keys : list Key) (f : Transform C)
    (retryCount : Z) (r : AttemptResult) : M C SafeAtomicManyResponse :=
  match r with
  | Committed v => ret (mkMany true None v)
  | Aborted reason original => ret (mkMany false reason (JArr original))
  | ComputeError msg => throw msg
  | Conflict original =>
      if retryCount =? 0 then ret (mkMany false (Some err_commit) (JArr original))
      else setSafeAtomicMany fuel keys f (Some (retryCount - 1))
  end.

(** ** The observable shape of a call

    [Shape keys n t o]: a call with retry count [n] may leave the events [t]
    behind and end with outcome [o]. Every pass opens with a read of all the
    keys; a pass that reaches the commit built its transaction from the
    entries of that very read. *)

Definition accepted (n : nat) (aborts : list (option string)) (upd : JsValue) : bool :=
  negb (aborting (run_aborts aborts)) && truthy upd &&
  negb (strict_neq_num (get_length upd) (Z.of_nat n)).

Inductive Shape (keys : list Key)
    : Z -> list Event -> Outcome SafeAtomicManyResponse -> Prop :=
  | Shape_diverged n :
      Shape keys n [] Diverged
  | Shape_aborted n es mutated aborts upd :
      map key es = keys ->
      aborting (run_aborts aborts) = true ->
      Shape keys n
        [EvGetMany keys es; EvUpdate (map value es) mutated aborts upd]
        (Returned (mkMany false (abortReason (run_aborts aborts)) (JArr (map value es))))
  | Shape_no_array n es mutated aborts upd :
      map key es = keys ->
      aborting (run_aborts aborts) = false ->
      truthy upd = false ->
      Shape keys n
        [EvGetMany keys es; EvUpdate (map value es) mutated aborts upd]
        (Threw err_no_array)
  | Shape_count n es mutated aborts upd :
      map key es = keys ->
      aborting (run_aborts aborts) = false ->
      truthy upd = true ->
      strict_neq_num (get_length upd) (Z.of_nat (length keys)) = true ->
      Shape keys n
        [EvGetMany keys es; EvUpdate (map value es) mutated aborts upd]
        (Threw err_count)
  | Shape_committed n es mutated aborts upd :
      map key es = keys ->
      accepted (length keys) aborts upd = true ->
      Shape keys n
        [EvGetMany keys es; EvUpdate (map value es) mutated aborts upd;
         EvCommit (build_tx es upd) true]
        (Returned (mkMany true None upd))
  | Shape_exhausted es mutated aborts upd :
      map key es = keys ->
      accepted (length keys) aborts upd = true ->
      Shape keys 0
        [EvGetMany keys es; EvUpdate (map value es) mutated aborts upd;
         EvCommit (build_tx es upd) false]
        (Returned (mkMany false (Some err_commit) (JArr (map value es))))
  | Shape_retry n es mutated aborts upd t o :
      map key es = keys ->
      accepted (length keys) aborts upd = true ->
      n <> 0 ->
      Shape keys (n - 1) t o ->
      Shape keys n
        (EvGetMany keys es :: EvUpdate (map value es) mutated aborts upd ::
         EvCommit (build_tx es upd) false :: t)
        o.

(** ** Counting events *)

Definition is_read (e : Event) : bool :=
  match e with EvGetMany _ _ => true | _ => false end.

Definition is_commit (e : Event) : bool :=
  match e with EvCommit _ _ => true | _ => false end.

Definition is_update (e : Event) : bool :=
  match e with EvUpdate _ _ _ _ => true | _ => false end.

Definition reads (t : list Event) : nat := length (List.filter is_read t).
Definition commits (t : list Event) : nat := length (List.filter is_commit t).
Definition updates (t : list Event) : nat := length (List.filter is_update t).

(** ** Notions used in the statements *)

Definition is_failed_commit (e : Event) : bool :=
  match e with EvCommit _ false => true | _ => false end.

Definition failures (t : list Event) : nat := length (List.filter is_failed_commit t).

(** What the first pass of a call started in [st] gets to see. *)
Definition db_at_read {C : Type} (st : State C) : Db :=
  fst (deliver (db st) (others st)).

Definition entries_read {C : Type} (keys : list Key) (st : State C) : list KvEntryMaybe :=
  kv_getMany (db_at_read st) keys.

Definition callback_run {C : Type} (keys : list Key) (f : Transform C) (st : State C)
    : TransformRun C :=
  f (closure st) (map value (entries_read keys st)).

Definition db_at_commit {C : Type} (st : State C) : Db :=
  fst (deliver (db_at_read st) (snd (deliver (db st) (others st)))).

(** A value that can stand for a sequence of values: it has a numeric
    [length]. Arrays are the sequences the declared type of the callback
    admits. *)
Definition is_sequence (v : JsValue) : bool :=
  match get_length v with JNum _ => true | _ => false end.

(** The transaction of the design: for every index a check of the entry read
    and a set of the new value, in this order. *)
Definition expected_tx (results : list KvEntryMaybe) (newValues : list JsValue)
    : AtomicOperation :=
  concat (zip_with (fun e v => [OpCheck (key e) (versionstamp e); OpSet (key e) v])
                   results newValues).

(** The reasons handed to [abort], call by call. *)
Definition supplied_reasons (calls : list (option string)) : list string :=
  omap id calls.

(** "The last reason supplied", read literally. *)
Definition last_supplied (calls : list (option string)) : option string :=
  last (supplied_reasons calls).

(** The last reason supplied that is not the empty string. *)
Definition last_nonempty (calls : list (option string)) : option string :=
  last (List.filter (fun r => truthy (JStr r)) (supplied_reasons calls)).

(** The single-key operation as the design words it: the multi-key operation
    on the one-element batch, with [values[0]] unwrapped from its result. *)
Definition unwrap_first (o : Outcome SafeAtomicManyResponse)
    : Outcome Single.SafeAtomicSingleResponse :=
  match o with
  | Returned r => Returned (Single.mkSingle (ok r) (error r) (get_index (values r) 0))
  | Threw msg => Threw msg
  | Diverged => Diverged
  end.

Definition updateOne_by_updateMany {C : Type} (fuel : nat) (k : Key)
    (fn : SingleTransform C) (budget : option Z) (st : State C)
    : Outcome Single.SafeAtomicSingleResponse * State C :=
  let many :=
    setSafeAtomicMany fuel [k]
      (fun c vals =>
         let r := fn c (default JUndefined (vals !! 0%nat)) in
         mkRun (sr_aborts r) (<[0%nat := sr_mutated r]> vals)
               (RetVal (JArr [sr_return r])) (sr_state r))
      budget st in
  (unwrap_first (fst many), snd many).

(** ** Further notions: the database between the read and the commit *)

(** Versionstamps handed out so far never exceed the clock. *)
Definition db_wf (d : Db) : Prop :=
  map_Forall (fun _ row => (snd row <= clock d)%nat) (rows d).

(** The foreign batches the first pass of a call started in [st] meets: the
    one delivered before its read and the one delivered before its commit. *)
Definition read_batch {C : Type} (st : State C) : list Write :=
  default [] (others st !! 0%nat).

Definition commit_batch {C : Type} (st : State C) : list Write :=
  default [] (others st !! 1%nat).

(** The writes of a batch that go to the key [k], in order. *)
Definition writes_to (k : Key) (batch : list Write) : list Write :=
  List.filter (fun w => bool_decide (fst w = k)) batch.

(** The state a pass leaves when it reaches the commit. *)
Definition after_commit {C : Type} (keys : list Key) (f : Transform C) (st : State C)
    : State C :=
  let run := callback_run keys f st in
  let results := entries_read keys st in
  let tx := build_tx results (resolve run) in
  mkState (snd (kv_commit (db_at_commit st) tx))
          (drop 2 (others st))
          (heap st ++ [tr_mutated run; map value results])
          (tr_state run)
          (trace st ++
           [EvGetMany keys results;
            EvUpdate (map value results) (tr_mutated run) (tr_aborts run) (resolve run);
            EvCommit tx (fst (kv_commit (db_at_commit st) tx))]).

(** ** [withSafeAtomics]: own properties of the instance

    [Object.defineProperty(o, name, {value})] as ECMAScript defines it
    (ValidateAndApplyPropertyDescriptor with a descriptor that has only a
    [value] field). Property values are compared by identity ([SameValue]),
    here the decidable equality of [V]. *)

Inductive Property (V : Type) : Type :=
  | DataProp (val : V) (writable enumerable configurable : bool)
  | AccessorProp (enumerable configurable : bool).
Arguments DataProp {V} _ _ _ _.
Arguments AccessorProp {V} _ _.

Record JsObject (V : Type) : Type := mkObject {
  props : gmap string (Property V);
  extensible : bool
}.
Arguments mkObject {V} _ _.
Arguments props {V} _.
Arguments extensible {V} _.

(** The flag tells whether the definition went through; [false] is the
    [TypeError] of [Object.defineProperty]. The object is mutated in place,
    so it is returned in both cases. *)
Definition defineProperty {V : Type} `{EqDecision V}
    (o : JsObject V) (name : string) (v : V) : bool * JsObject V :=
  match props o !! name with
  | None =>
      if extensible o
      then (true, mkObject (<[name := DataProp v false false false]> (props o)) (extensible o))
      else (false, o)
  | Some (DataProp cur w e c) =>
      if c || w
      then (true, mkObject (<[name := DataProp v w e c]> (props o)) (extensible o))
      else if decide (v = cur) then (true, o) else (false, o)
  | Some (AccessorProp e c) =>
      if c
      then (true, mkObject (<[name := DataProp v false e c]> (props o)) (extensible o))
      else (false, o)
  end.

(** [withSafeAtomics(denoKvInstance)]: the two function objects of the module
    are [fn_many] and [fn_single]. *)
Definition withSafeAtomics {V : Type} `{EqDecision V} (fn_many fn_single : V)
    (denoKvInstance : JsObject V) : bool * JsObject V :=
  let first := defineProperty denoKvInstance "setSafeAtomicMany" fn_many in
  if fst first
  then defineProperty (snd first) "setSafeAtomic" fn_single
  else first.

(** ** Scenarios

    The balance transfer of the design: two accounts, other clients that keep
    writing to the first one, and a handful of callbacks. *)

Definition kA : Key := [KStr "accounts"; KStr "A"].
Definition kB : Key := [KStr "accounts"; KStr "B"].

Definition bank (a b : Z) : Db :=
  mkDb (<[kA := (JNum a, 1%nat)]> (<[kB := (JNum b, 2%nat)]> ∅)) 2%nat.

Definition start (d : Db) (pending : list (list Write)) : State unit :=
  mkState d pending [] tt [].

(** Moves 30 from the first account to the second by overwriting the array
    it is given, and hands that array back. *)
Definition transfer : Transform unit :=
  fun _ vals =>
    match vals with
    | [JNum a; JNum b] =>
        if 30 <=? a then mkRun [] [JNum (a - 30); JNum (b + 30)] RetArg tt
        else mkRun [Some "insufficient funds"] vals (RetVal JUndefined) tt
    | _ => mkRun [] vals (RetVal JUndefined) tt
    end.


Definition returns_nothing : Transform unit :=
  fun _ vals => mkRun [] vals (RetVal JUndefined) tt.

Definition returns_one_value : Transform unit :=
  fun _ vals => mkRun [] vals (RetVal (JArr [JNum 1])) tt.

Definition aborts_with (calls : list (option string)) : Transform unit :=
  fun _ vals => mkRun calls vals (RetVal JUndefined) tt.

Definition aborted_with_empty_reason_run : Outcome SafeAtomicManyResponse * State unit :=
  setSafeAtomicMany 11 [kA; kB] (aborts_with [Some ""]) None
    (start (bank 100 50) []).

Definition aborted_twice_run : Outcome SafeAtomicManyResponse * State unit :=
  setSafeAtomicMany 11 [kA; kB] (aborts_with [Some "first"; Some ""]) None
    (start (bank 100 50) []).

(** Before each of the first [n] commits another client writes to the first
    account. *)
Definition rival (n : nat) : list (list Write) :=
  concat (replicate n [[]; [(kA, Some (JNum 1000))]]).

(** ** Further scenarios *)

Definition kC : Key := [KStr "accounts"; KStr "C"].

(** Another client writes to a third account before the commit. *)
Definition bystander : list (list Write) := [[]; [(kC, Some (JNum 7))]].

Definition identity_callback : Transform unit :=
  fun _ vals => mkRun [] vals RetArg tt.

Definition forgets_to_return : SingleTransform unit :=
  fun _ v => mkSingleRun [] v JUndefined tt.

Definition declines : SingleTransform unit :=
  fun _ v => mkSingleRun [Some "no"] v (JNum 1) tt.

(** A Deno KV instance with one own property and nothing else. *)
Definition plain_instance : JsObject string :=
  mkObject (<["label" := DataProp "kv" true true true]> ∅) true.

(** * Basic facts *)

(** Splitting one pass into its four ways of ending. *)
Ltac attempt_cases H :=
  unfold attempt in H; cbv zeta in H;
  match type of H with
  | context [aborting ?x] => destruct (aborting x) eqn:Habort
  end;
  [ | match type of H with
      | context [truthy ?x] => destruct (truthy x) eqn:Htruthy
      end; cbn [negb] in H;
      [ match type of H with
        | context [strict_neq_num ?x ?y] => destruct (strict_neq_num x y) eqn:Hlen
        end;
        [ | match type of H with
            | context [kv_commit ?d ?tx] =>
                destruct (kv_commit d tx) as [[|] d3] eqn:Hcommit
            end ]
      | ] ];
  cbn [fst snd respond] in H.

Section Facts.
Context {C : Type}.
Implicit Types (st : State C) (f : Transform C) (keys : list Key).

Lemma heap_alloc_lookup (h : list (list JsValue)) (xs : list JsValue) :
  (h ++ [xs]) !! length h = Some xs.
Proof. rewrite lookup_app_r by lia. now rewrite Nat.sub_diag. Qed.

Lemma heap_clone_update (h : list (list JsValue)) (xs ys : list JsValue) :
  <[length h := ys]> ((h ++ [xs]) ++ [xs]) = h ++ [ys; xs].
Proof.
  rewrite <- app_assoc. simpl.
  rewrite insert_app_r_alt by lia. now rewrite Nat.sub_diag.
Qed.

Lemma heap_clone_lookup (h : list (list JsValue)) (xs ys : list JsValue) :
  (h ++ [ys; xs]) !! length (h ++ [xs]) = Some xs.
Proof.
  rewrite length_app. simpl.
  rewrite lookup_app_r by lia.
  now replace (length h + 1 - length h)%nat with 1%nat by lia.
Qed.

Lemma heap_arg_lookup (h : list (list JsValue)) (xs ys : list JsValue) :
  ((h ++ [xs]) ++ [ys]) !! length h = Some xs.
Proof.
  rewrite lookup_app_l by (rewrite length_app; simpl; lia).
  apply heap_alloc_lookup.
Qed.

Lemma getMany_run keys st :
  getMany keys st =
  (Returned (kv_getMany (fst (deliver (db st) (others st))) keys),
   mkState (fst (deliver (db st) (others st))) (snd (deliver (db st) (others st)))
           (heap st) (closure st)
           (trace st ++
            [EvGetMany keys (kv_getMany (fst (deliver (db st) (others st))) keys)])).
Proof.
  unfold getMany, bind, await_turn, emit, ret, deliver.
  destruct st as [d o h c t]; destruct o; reflexivity.
Qed.

Lemma commit_run (tx : AtomicOperation) st :
  commit tx st =
  (Returned (fst (kv_commit (fst (deliver (db st) (others st))) tx)),
   mkState (snd (kv_commit (fst (deliver (db st) (others st))) tx))
           (snd (deliver (db st) (others st))) (heap st) (closure st)
           (trace st ++
            [EvCommit tx (fst (kv_commit (fst (deliver (db st) (others st))) tx))])).
Proof.
  unfold commit, bind, await_turn, emit, ret, deliver.
  destruct st as [d o h c t]; destruct o; cbn;
    match goal with |- context [kv_commit ?a ?b] => destruct (kv_commit a b) end;
    reflexivity.
Qed.

Lemma setSafeAtomicMany_unfold fuel keys f retryCount st :
  setSafeAtomicMany (S fuel) keys f retryCount st =
  respond fuel keys f (default 10 retryCount) (fst (attempt keys f st))
          (snd (attempt keys f st)).
Proof.
  unfold attempt. cbn [setSafeAtomicMany].
  unfold bind at 1. rewrite getMany_run.
  set (read := deliver (db st) (others st)).
  set (results := kv_getMany (fst read) keys).
  unfold bind at 1. unfold alloc at 1. cbn [heap db others closure trace].
  unfold bind at 1. unfold structuredClone, bind, deref, alloc.
  cbn [heap db others closure trace]. rewrite heap_alloc_lookup. cbn [from_option]. unfold id.
  unfold call. cbn [heap db others closure trace fst snd].
  rewrite heap_arg_lookup. cbn [from_option]. unfold id.
  rewrite heap_clone_update. cbn [fst snd].
  rewrite <- (app_assoc (trace st)). cbn [app].
  set (r := f (closure st) (map value results)).
  destruct (aborting (run_aborts (tr_aborts r))).
  { unfold bind, deref, ret. cbn [heap]. rewrite heap_clone_lookup. reflexivity. }
  destruct (truthy (resolve r)); [|reflexivity]. cbn [negb].
  destruct (strict_neq_num _ _); [reflexivity|].
  rewrite commit_run. cbn [heap db others closure trace fst snd].
  rewrite <- (app_assoc (trace st)). cbn [app].
  destruct (kv_commit _ _) as [[|] d3]; cbn [fst snd]; [reflexivity|].
  cbn [respond fst snd].
  destruct (_ =? 0); [|reflexivity].
  unfold bind, deref, ret. cbn [heap]. rewrite heap_clone_lookup. reflexivity.
Qed.

Lemma kv_getMany_keys (d : Db) keys : map key (kv_getMany d keys) = keys.
Proof.
  unfold kv_getMany. induction keys as [|k keys IH]; [reflexivity|].
  cbn [map]. rewrite IH. f_equal. unfold kv_get.
  destruct (rows d !! k) as [[v vs]|]; reflexivity.
Qed.

Lemma kv_getMany_length (d : Db) keys : length (kv_getMany d keys) = length keys.
Proof. unfold kv_getMany. apply length_map. Qed.

Lemma setSafeAtomicMany_shape fuel keys f retryCount st o st' :
  setSafeAtomicMany fuel keys f retryCount st = (o, st') ->
  exists t, trace st' = trace st ++ t /\ Shape keys (default 10 retryCount) t o.
Proof.
  revert retryCount st o st'.
  induction fuel as [|fuel IH]; intros retryCount st o st' H.
  { injection H as <- <-. exists []. rewrite app_nil_r. split; [reflexivity|constructor]. }
  rewrite setSafeAtomicMany_unfold in H.
  pose proof (kv_getMany_keys (fst (deliver (db st) (others st))) keys) as Hkeys.
  attempt_cases H; try rewrite kv_getMany_length in Hlen;
    try (assert (accepted (length keys)
                   (tr_aborts (f (closure st)
                      (map value (kv_getMany (fst (deliver (db st) (others st))) keys))))
                   (resolve (f (closure st)
                      (map value (kv_getMany (fst (deliver (db st) (others st))) keys))))
                 = true) as Hacc
           by (unfold accepted; rewrite Habort, Htruthy, Hlen; reflexivity)).
  - injection H as <- <-. eexists. split; [reflexivity|]. now constructor.
  - injection H as <- <-. eexists. split; [reflexivity|]. now constructor.
  - injection H as <- <-.
    eexists. split; [cbn [trace]; rewrite <- app_assoc; reflexivity|].
    cbn [app]. now constructor.
  - destruct (default 10 retryCount =? 0) eqn:Hzero.
    + injection H as <- <-. apply Z.eqb_eq in Hzero. rewrite Hzero.
      eexists. split; [cbn [trace]; rewrite <- app_assoc; reflexivity|].
      cbn [app]. now constructor.
    + apply IH in H as (t & Ht & Hshape). cbn [trace] in Ht.
      apply Z.eqb_neq in Hzero.
      eexists. split; [rewrite Ht, <- !app_assoc; reflexivity|].
      cbn [app]. now constructor.
  - injection H as <- <-. eexists. split; [reflexivity|]. now constructor.
Qed.

Lemma deliver_replay (d : Db) (pending : list (list Write)) :
  pending = take 1 pending ++ snd (deliver d pending) /\
  fst (deliver d pending) = replay d (take 1 pending).
Proof. destruct pending; split; reflexivity. Qed.

Lemma replay_app (d : Db) (c1 c2 : list (list Write)) :
  replay (replay d c1) c2 = replay d (c1 ++ c2).
Proof. unfold replay. now rewrite foldl_app. Qed.

Lemma kv_commit_false (d d' : Db) (tx : AtomicOperation) :
  kv_commit d tx = (false, d') -> d' = d.
Proof.
  unfold kv_commit. destruct (forallb (check_holds d) tx); [discriminate|].
  now intros [= <-].
Qed.

(** A call that does not end in a successful commit leaves in the database
    only what the other clients wrote meanwhile. *)
Lemma setSafeAtomicMany_frame fuel keys f retryCount st o st' :
  setSafeAtomicMany fuel keys f retryCount st = (o, st') ->
  exists consumed,
    others st = consumed ++ others st' /\
    ((exists v, o = Returned (mkMany true None v)) \/
     db st' = replay (db st) consumed).
Proof.
  revert retryCount st o st'.
  induction fuel as [|fuel IH]; intros retryCount st o st' H.
  { injection H as <- <-. exists []. split; [reflexivity|now right]. }
  rewrite setSafeAtomicMany_unfold in H.
  destruct (deliver_replay (db st) (others st)) as [Ho1 Hd1].
  attempt_cases H.
  - injection H as <- <-. exists (take 1 (others st)). split; [exact Ho1|now right].
  - injection H as <- <-. exists (take 1 (others st)). split; [exact Ho1|now right].
  - injection H as <- <-.
    destruct (deliver_replay (fst (deliver (db st) (others st)))
                (snd (deliver (db st) (others st)))) as [Ho2 Hd2].
    exists (take 1 (others st) ++ take 1 (snd (deliver (db st) (others st)))).
    split; [|left; eauto].
    cbn [others]. rewrite <- app_assoc, <- Ho2. exact Ho1.
  - destruct (deliver_replay (fst (deliver (db st) (others st)))
                (snd (deliver (db st) (others st)))) as [Ho2 Hd2].
    apply kv_commit_false in Hcommit. subst d3.
    destruct (default 10 retryCount =? 0).
    + injection H as <- <-.
      exists (take 1 (others st) ++ take 1 (snd (deliver (db st) (others st)))).
      split.
      * cbn [others]. rewrite <- app_assoc, <- Ho2. exact Ho1.
      * right. cbn [db]. now rewrite Hd2, Hd1, replay_app.
    + apply IH in H as (c3 & Ho3 & Hd3). cbn [others db] in Ho3, Hd3.
      exists (take 1 (others st) ++ take 1 (snd (deliver (db st) (others st))) ++ c3).
      split.
      * rewrite <- !app_assoc, <- Ho3, <- Ho2. exact Ho1.
      * destruct Hd3 as [Hd3|Hd3]; [now left|right].
        now rewrite Hd3, Hd2, Hd1, !replay_app.
  - injection H as <- <-. exists (take 1 (others st)). split; [exact Ho1|now right].
Qed.

(** A non-negative retry count never runs out of fuel. *)
Lemma setSafeAtomicMany_total fuel keys f retryCount st o st' :
  setSafeAtomicMany fuel keys f retryCount st = (o, st') ->
  0 <= default 10 retryCount ->
  (Z.to_nat (default 10%Z retryCount) < fuel)%nat ->
  o <> Diverged.
Proof.
  revert retryCount st o st'.
  induction fuel as [|fuel IH]; intros retryCount st o st' H Hpos Hfuel; [lia|].
  rewrite setSafeAtomicMany_unfold in H.
  attempt_cases H; try (injection H as <- <-; discriminate).
  destruct (default 10 retryCount =? 0) eqn:Hzero.
  - injection H as <- <-; discriminate.
  - apply Z.eqb_neq in Hzero.
    apply IH in H; [exact H| |]; cbn [from_option]; unfold id in *; lia.
Qed.

Lemma setSafeAtomicMany_first_read fuel keys f retryCount st o st' :
  setSafeAtomicMany (S fuel) keys f retryCount st = (o, st') ->
  exists t,
    trace st' = trace st ++
      EvGetMany keys (kv_getMany (fst (deliver (db st) (others st))) keys) :: t.
Proof.
  intros H. rewrite setSafeAtomicMany_unfold in H.
  attempt_cases H; try (injection H as <- <-; eexists; reflexivity).
  - injection H as <- <-. eexists. cbn [trace]. rewrite <- app_assoc. reflexivity.
  - destruct (default 10 retryCount =? 0).
    + injection H as <- <-. eexists. cbn [trace]. rewrite <- app_assoc. reflexivity.
    + apply setSafeAtomicMany_shape in H as (t & Ht & _). cbn [trace] in Ht.
      eexists. rewrite Ht, <- !app_assoc. reflexivity.
Qed.

End Facts.

(** * Facts about the shape of a call *)

Section ShapeFacts.
Variable keys : list Key.

Lemma accepted_true n aborts upd :
  accepted n aborts upd = true ->
  aborting (run_aborts aborts) = false /\ truthy upd = true /\
  strict_neq_num (get_length upd) (Z.of_nat n) = false.
Proof.
  unfold accepted. intros H.
  apply andb_prop in H as [H H3]. apply andb_prop in H as [H1 H2].
  apply negb_true_iff in H1, H3. auto.
Qed.

Lemma Shape_head n t o :
  Shape keys n t o -> t = [] \/ exists es t', t = EvGetMany keys es :: t'.
Proof. destruct 1; eauto. Qed.

Lemma Shape_nil n o : Shape keys n [] o -> o = Diverged.
Proof. now inversion 1. Qed.

(** A pass whose callback answer is turned down is the last pass of the
    call; its outcome is a function of that answer alone, and no commit of
    the call went through. *)
Lemma Shape_rejected n t o vals mutated aborts upd :
  Shape keys n t o ->
  In (EvUpdate vals mutated aborts upd) t ->
  accepted (length keys) aborts upd = false ->
  exists pre es,
    t = pre ++ [EvGetMany keys es; EvUpdate vals mutated aborts upd] /\
    vals = map value es /\
    map key es = keys /\
    (forall tx b, In (EvCommit tx b) t -> b = false) /\
    o = if aborting (run_aborts aborts)
        then Returned (mkMany false (abortReason (run_aborts aborts)) (JArr vals))
        else if truthy upd then Threw err_count else Threw err_no_array.
Proof.
  intros Hshape Hin Hrej.
  induction Hshape as
    [ n | n es m a u Hk Ha | n es m a u Hk Ha Ht | n es m a u Hk Ha Ht Hl
    | n es m a u Hk Hacc | es m a u Hk Hacc | n es m a u t o Hk Hacc Hn Hshape IH ].
  - destruct Hin.
  - destruct Hin as [Hin|[Hin|[]]]; [discriminate|]. injection Hin as <- <- <- <-.
    exists [], es. repeat split; auto.
    + intros tx b [Hc|[Hc|[]]]; discriminate.
    + now rewrite Ha.
  - destruct Hin as [Hin|[Hin|[]]]; [discriminate|]. injection Hin as <- <- <- <-.
    exists [], es. repeat split; auto.
    + intros tx b [Hc|[Hc|[]]]; discriminate.
    + now rewrite Ha, Ht.
  - destruct Hin as [Hin|[Hin|[]]]; [discriminate|]. injection Hin as <- <- <- <-.
    exists [], es. repeat split; auto.
    + intros tx b [Hc|[Hc|[]]]; discriminate.
    + now rewrite Ha, Ht.
  - destruct Hin as [Hin|[Hin|[Hin|[]]]]; try discriminate.
    injection Hin as <- <- <- <-. congruence.
  - destruct Hin as [Hin|[Hin|[Hin|[]]]]; try discriminate.
    injection Hin as <- <- <- <-. congruence.
  - destruct Hin as [Hin|[Hin|[Hin|Hin]]]; try discriminate.
    { injection Hin as <- <- <- <-. congruence. }
    destruct (IH Hin) as (pre & es' & -> & Hv & Hk' & Hc & Ho).
    exists (EvGetMany keys es :: EvUpdate (map value es) m a u ::
            EvCommit (build_tx es u) false :: pre), es'.
    repeat split; auto.
    intros tx b [Hc'|[Hc'|[Hc'|Hc']]]; try discriminate.
    + now injection Hc' as _ <-.
    + eauto.
Qed.

(** One retry is spent for every commit that fails. *)
Lemma Shape_counts n t o :
  Shape keys n t o ->
  0 <= n ->
  Z.of_nat (reads t) <= n + 1 /\ Z.of_nat (commits t) <= n + 1 /\
  updates t = reads t /\ (commits t <= reads t)%nat.
Proof.
  induction 1 as
    [ n | n es m a u Hk Ha | n es m a u Hk Ha Ht | n es m a u Hk Ha Ht Hl
    | n es m a u Hk Hacc | es m a u Hk Hacc | n es m a u t o Hk Hacc Hn Hshape IH ];
    intros Hpos; unfold reads, commits, updates in *; cbn; lia.
Qed.

(** Every commit comes right after a read of all the keys and the callback
    run on that read, is built from the entries of that read, and -- when
    it is not the end of the call -- is followed by a new read. *)
Lemma Shape_commit_after_read n t o pre tx b post :
  Shape keys n t o ->
  t = pre ++ EvCommit tx b :: post ->
  exists pre' es mutated aborts upd,
    pre = pre' ++ [EvGetMany keys es; EvUpdate (map value es) mutated aborts upd] /\
    map key es = keys /\
    tx = build_tx es upd /\
    (post = [] \/ exists es' post', b = false /\ post = EvGetMany keys es' :: post').
Proof.
  intros Hshape. revert pre.
  induction Hshape as
    [ n | n es m a u Hk Ha | n es m a u Hk Ha Ht | n es m a u Hk Ha Ht Hl
    | n es m a u Hk Hacc | es m a u Hk Hacc | n es m a u t o Hk Hacc Hn Hshape IH ];
    intros pre Heq.
  1-4: destruct pre as [|? [|? [|? ?]]]; discriminate.
  1-2: destruct pre as [|? [|? [|? [|? ?]]]]; try discriminate;
       injection Heq as <- <- <- <- <-;
       exists [], es, m, a, u; auto.
  destruct pre as [|e1 [|e2 [|e3 pre]]]; try discriminate.
  - injection Heq as <- <- <- <- <-.
    exists [], es, m, a, u. repeat split; auto.
    destruct (Shape_head _ _ _ Hshape) as [->|(es' & t' & ->)]; eauto.
  - injection Heq as <- <- <- Heq.
    destruct (IH _ Heq) as (pre' & es' & m' & a' & u' & -> & Hk' & Htx & Hpost).
    exists (EvGetMany keys es :: EvUpdate (map value es) m a u ::
            EvCommit (build_tx es u) false :: pre'), es', m', a', u'.
    auto.
Qed.

(** With a retry count [n >= 0] the commit can fail [n + 1] times at most,
    and when it does the call gives up on that last failure. *)
Lemma Shape_failures n t o :
  Shape keys n t o ->
  0 <= n ->
  Z.of_nat (failures t) <= n + 1 /\
  (Z.of_nat (failures t) = n + 1 ->
   exists pre es mutated aborts upd,
     t = pre ++ [EvGetMany keys es; EvUpdate (map value es) mutated aborts upd;
                 EvCommit (build_tx es upd) false] /\
     map key es = keys /\
     o = Returned (mkMany false (Some err_commit) (JArr (map value es)))).
Proof.
  induction 1 as
    [ n | n es m a u Hk Ha | n es m a u Hk Ha Ht | n es m a u Hk Ha Ht Hl
    | n es m a u Hk Hacc | es m a u Hk Hacc | n es m a u t o Hk Hacc Hn Hshape IH ];
    intros Hpos; unfold failures in *; cbn [List.filter is_failed_commit length];
    try (split; [lia|intros; lia]).
  - split; [lia|]. intros _. exists [], es, m, a, u. auto.
  - destruct IH as [Hle Hex]; [lia|]. split; [lia|]. intros Heq.
    destruct Hex as (pre & es' & m' & a' & u' & -> & Hk' & Ho); [lia|].
    exists (EvGetMany keys es :: EvUpdate (map value es) m a u ::
            EvCommit (build_tx es u) false :: pre), es', m', a', u'.
    auto.
Qed.

End ShapeFacts.

(** * The abort callback *)

Section Abort.

Lemma run_aborts_snoc (calls : list (option string)) (reason : option string) :
  run_aborts (calls ++ [reason]) = abort reason (run_aborts calls).
Proof. unfold run_aborts. now rewrite foldl_app. Qed.

Lemma aborting_iff (calls : list (option string)) :
  aborting (run_aborts calls) = true <-> calls <> [].
Proof.
  destruct calls as [|c calls _] using rev_ind.
  - split; [discriminate|congruence].
  - rewrite run_aborts_snoc. split; [|reflexivity].
    intros _ Heq. now apply app_eq_nil in Heq as [_ ?].
Qed.

Lemma aborting_nil : aborting (run_aborts []) = false.
Proof. reflexivity. Qed.

Lemma abortReason_last_nonempty (calls : list (option string)) :
  abortReason (run_aborts calls) = last_nonempty calls.
Proof.
  unfold last_nonempty, supplied_reasons.
  induction calls as [|c calls IH] using rev_ind; [reflexivity|].
  rewrite run_aborts_snoc, omap_app, List.filter_app. cbn [abort abortReason].
  destruct c as [r|]; simpl.
  - destruct (String.eqb r ""); simpl.
    + now rewrite app_nil_r.
    + now rewrite last_snoc.
  - now rewrite app_nil_r.
Qed.

(** When the last call of [abort] came with a reason that is not empty, that
    reason is the last non-empty one. *)
Lemma last_nonempty_of_last_call (calls : list (option string)) (r : string) :
  last calls = Some (Some r) ->
  r <> "" ->
  last_nonempty calls = Some r.
Proof.
  intros Hlast Hr. apply last_Some in Hlast as [calls' ->].
  unfold last_nonempty, supplied_reasons.
  rewrite omap_app, List.filter_app. simpl.
  destruct (String.eqb r "") eqn:Heq.
  - apply String.eqb_eq in Heq. contradiction.
  - simpl. now rewrite last_snoc.
Qed.

Lemma rejected_when_aborting n calls upd :
  calls <> [] -> accepted n calls upd = false.
Proof.
  intros H. apply aborting_iff in H. unfold accepted. now rewrite H.
Qed.

Lemma rejected_when_not_sequence n upd :
  is_sequence upd = false -> accepted n [] upd = false.
Proof.
  unfold is_sequence, accepted. intros H.
  destruct (truthy upd); [|reflexivity].
  destruct (get_length upd); try discriminate; reflexivity.
Qed.

Lemma rejected_when_wrong_length n upd m :
  get_length upd = JNum m -> m <> Z.of_nat n -> accepted n [] upd = false.
Proof.
  unfold accepted. intros -> H.
  destruct (truthy upd); [|reflexivity]. cbn.
  apply Z.eqb_neq in H. now rewrite H.
Qed.

End Abort.

(** * A call whose callback answer is turned down *)

Section Rejected.
Context {C : Type}.

Lemma setSafeAtomicMany_rejected fuel keys (f : Transform C) retryCount st o st' t
    vals mutated aborts upd :
  setSafeAtomicMany fuel keys f retryCount st = (o, st') ->
  trace st' = trace st ++ t ->
  In (EvUpdate vals mutated aborts upd) t ->
  accepted (length keys) aborts upd = false ->
  exists pre es consumed,
    t = pre ++ [EvGetMany keys es; EvUpdate vals mutated aborts upd] /\
    vals = map value es /\
    map key es = keys /\
    (forall tx b, In (EvCommit tx b) t -> b = false) /\
    o = (if aborting (run_aborts aborts)
         then Returned (mkMany false (abortReason (run_aborts aborts)) (JArr vals))
         else if truthy upd then Threw err_count else Threw err_no_array) /\
    others st = consumed ++ others st' /\
    db st' = replay (db st) consumed.
Proof.
  intros Hrun Ht Hin Hrej.
  destruct (setSafeAtomicMany_shape _ _ _ _ _ _ _ Hrun) as (t' & Ht' & Hshape).
  rewrite Ht in Ht'. apply app_inv_head in Ht'. subst t'.
  destruct (Shape_rejected _ _ _ _ _ _ _ _ Hshape Hin Hrej)
    as (pre & es & Hpre & Hv & Hk & Hc & Ho).
  destruct (setSafeAtomicMany_frame _ _ _ _ _ _ _ Hrun) as (consumed & Hothers & Hdb).
  exists pre, es, consumed. repeat split; auto.
  destruct Hdb as [[v Hv']|Hdb]; [|exact Hdb].
  rewrite Hv' in Ho.
  destruct (aborting (run_aborts aborts)); [discriminate|].
  destruct (truthy upd); discriminate.
Qed.

End Rejected.

(** * The transaction *)

Section Transaction.

Lemma expected_tx_cons e results v newValues :
  expected_tx (e :: results) (v :: newValues) =
  OpCheck (key e) (versionstamp e) :: OpSet (key e) v :: expected_tx results newValues.
Proof. reflexivity. Qed.

Lemma build_tx_from (results : list KvEntryMaybe) (newValues : list JsValue) :
  length newValues = length results ->
  forall len s tx0,
    (s + len = length results)%nat ->
    foldl (fun tx i =>
             match results !! i with
             | Some r => tx_set (tx_check tx r) (key r) (get_index (JArr newValues) i)
             | None => tx
             end) tx0 (seq s len)
    = tx0 ++ expected_tx (drop s results) (drop s newValues).
Proof.
  intros Hlen len.
  induction len as [|len IH]; intros s tx0 Hs.
  - rewrite !drop_ge by lia. cbn. now rewrite app_nil_r.
  - destruct (lookup_lt_is_Some_2 results s) as [r Hr]; [lia|].
    destruct (lookup_lt_is_Some_2 newValues s) as [v Hv]; [lia|].
    cbn [seq foldl]. rewrite Hr. rewrite IH by lia.
    rewrite (drop_S results r s Hr), (drop_S newValues v s Hv), expected_tx_cons.
    unfold tx_set, tx_check. cbn [get_index]. rewrite Hv. cbn [from_option]. unfold id.
    now rewrite <- !app_assoc.
Qed.

(** The loop of the source builds the transaction of the design. *)
Lemma build_tx_expected results newValues :
  length newValues = length results ->
  build_tx results (JArr newValues) = expected_tx results newValues.
Proof.
  intros Hlen. unfold build_tx.
  now rewrite (build_tx_from results newValues Hlen (length results) 0%nat atomic).
Qed.

Lemma expected_tx_length results newValues :
  length newValues = length results ->
  length (expected_tx results newValues) = (2 * length results)%nat.
Proof.
  revert newValues.
  induction results as [|e results IH]; intros [|v newValues] Hlen;
    try discriminate; [reflexivity|].
  rewrite expected_tx_cons. cbn [length]. rewrite IH by (cbn in Hlen; lia). lia.
Qed.

Lemma expected_tx_lookup results newValues i e v :
  results !! i = Some e ->
  newValues !! i = Some v ->
  expected_tx results newValues !! (2 * i)%nat = Some (OpCheck (key e) (versionstamp e)) /\
  expected_tx results newValues !! (2 * i + 1)%nat = Some (OpSet (key e) v).
Proof.
  revert newValues i.
  induction results as [|e0 results IH]; intros [|v0 newValues] i He Hv;
    try discriminate.
  rewrite expected_tx_cons. destruct i as [|i].
  - injection He as <-. injection Hv as <-. split; reflexivity.
  - replace (2 * S i)%nat with (S (S (2 * i))) by lia.
    replace (S (S (2 * i)) + 1)%nat with (S (S (2 * i + 1))) by lia.
    cbn [lookup list_lookup]. now apply IH.
Qed.

Lemma expected_tx_checks (d : Db) results newValues :
  length newValues = length results ->
  forallb (check_holds d) (expected_tx results newValues) = true <->
  (forall e, In e results -> snd <$> rows d !! key e = versionstamp e).
Proof.
  revert newValues.
  induction results as [|e0 results IH]; intros [|v0 newValues] Hlen;
    try discriminate.
  - split; [intros _ e []|reflexivity].
  - rewrite expected_tx_cons. cbn [forallb check_holds].
    rewrite andb_true_iff, bool_decide_eq_true, andb_true_l, IH by (cbn in Hlen; lia).
    split.
    + intros [H0 H] e [<-|He]; auto.
    + intros H. split; [apply H; now left|]. intros e He. apply H. now right.
Qed.

Lemma expected_tx_frame (vs : Versionstamp) results newValues k :
  forall r : gmap Key (JsValue * Versionstamp),
  ~ In k (map key results) ->
  foldl (apply_mutation vs) r (expected_tx results newValues) !! k = r !! k.
Proof.
  revert newValues.
  induction results as [|e0 results IH]; intros [|v0 newValues] r Hk; try reflexivity.
  rewrite expected_tx_cons. cbn [foldl apply_mutation].
  rewrite IH by (intros H; apply Hk; now right).
  apply lookup_insert_ne. intros Heq. apply Hk. now left.
Qed.

Lemma expected_tx_sets (vs : Versionstamp) results newValues i e v :
  forall r : gmap Key (JsValue * Versionstamp),
  List.NoDup (map key results) ->
  results !! i = Some e ->
  newValues !! i = Some v ->
  foldl (apply_mutation vs) r (expected_tx results newValues) !! key e = Some (v, vs).
Proof.
  revert newValues i.
  induction results as [|e0 results IH]; intros [|v0 newValues] i r Hnd He Hv;
    try discriminate.
  rewrite expected_tx_cons. cbn [foldl apply_mutation].
  cbn [map] in Hnd. apply List.NoDup_cons_iff in Hnd as [Hnotin Hnd].
  destruct i as [|i].
  - injection He as <-. injection Hv as <-.
    rewrite expected_tx_frame by assumption. apply lookup_insert_eq.
  - now apply (IH newValues i).
Qed.

Lemma kv_get_key (d : Db) (k : Key) : key (kv_get d k) = k.
Proof. unfold kv_get. destruct (rows d !! k) as [[v vs]|]; reflexivity. Qed.

Lemma kv_getMany_lookup (d : Db) keys i k :
  keys !! i = Some k -> kv_getMany d keys !! i = Some (kv_get d k).
Proof. intros H. unfold kv_getMany. now rewrite list_lookup_fmap, H. Qed.

End Transaction.

(** * The single-key wrapper *)

Section SingleKey.
Context {C : Type}.

(** On one key, whatever the multi-key operation returns carries exactly one
    value. *)
Lemma single_key_values fuel (k : Key) (fn : SingleTransform C) retryCount st resp st' :
  setSafeAtomicMany fuel [k] (wrap_single fn) retryCount st = (Returned resp, st') ->
  exists v, values resp = JArr [v].
Proof.
  revert retryCount st resp st'.
  induction fuel as [|fuel IH]; intros retryCount st resp st' H; [discriminate|].
  rewrite setSafeAtomicMany_unfold in H.
  attempt_cases H; try discriminate.
  - injection H as <- _. eexists. reflexivity.
  - injection H as <- _. eexists. reflexivity.
  - destruct (default 10 retryCount =? 0).
    + injection H as <- _. eexists. reflexivity.
    + eapply IH, H.
Qed.

End SingleKey.

(** * The claims *)

(** C1. When the callback returns, without aborting, an array with one new
    value per key, the pass sends one transaction: at positions [2i] and
    [2i+1] it holds the check of the entry read for the [i]-th key, with the
    versionstamp seen by that read, and the set of that key to the [i]-th new
    value. The commit is all or nothing: it succeeds exactly when every check
    holds in the database as it is then, in which case every set is applied
    (distinct keys then hold their new values) and otherwise the database is
    left as it was; keys outside the batch are never touched. Its boolean
    alone decides what follows: success is returned on [true]; on [false] the
    call is out of retries or tries again. *)
Theorem commit_is_one_atomic_check_and_set
    {C : Type} fuel keys (f : Transform C) retryCount st newValues :
  tr_aborts (callback_run keys f st) = [] ->
  resolve (callback_run keys f st) = JArr newValues ->
  length newValues = length keys ->
  let results := entries_read keys st in
  let tx := expected_tx results newValues in
  let d := db_at_commit st in
  (forall i k, keys !! i = Some k ->
     exists e v,
       results !! i = Some e /\ key e = k /\ newValues !! i = Some v /\
       tx !! (2 * i)%nat = Some (OpCheck k (versionstamp e)) /\
       tx !! (2 * i + 1)%nat = Some (OpSet k v)) /\
  length tx = (2 * length keys)%nat /\
  (fst (kv_commit d tx) = true <->
   forall e, In e results -> snd <$> rows d !! key e = versionstamp e) /\
  (fst (kv_commit d tx) = false -> snd (kv_commit d tx) = d) /\
  (fst (kv_commit d tx) = true -> List.NoDup keys ->
   forall i k v, keys !! i = Some k -> newValues !! i = Some v ->
     rows (snd (kv_commit d tx)) !! k = Some (v, S (clock d))) /\
  (forall k, ~ In k keys -> rows (snd (kv_commit d tx)) !! k = rows d !! k) /\
  exists st1,
    db st1 = snd (kv_commit d tx) /\
    trace st1 = trace st ++
      [EvGetMany keys results;
       EvUpdate (map value results) (tr_mutated (callback_run keys f st)) [] (JArr newValues);
       EvCommit tx (fst (kv_commit d tx))] /\
    setSafeAtomicMany (S fuel) keys f retryCount st =
      if fst (kv_commit d tx)
      then (Returned (mkMany true None (JArr newValues)), st1)
      else if default 10 retryCount =? 0
      then (Returned (mkMany false (Some err_commit) (JArr (map value results))), st1)
      else setSafeAtomicMany fuel keys f (Some (default 10 retryCount - 1)) st1.
Proof.
  intros Hab Hres Hlen results tx d.
  assert (Hkeys : map key results = keys) by apply kv_getMany_keys.
  assert (Hlen' : length newValues = length results)
    by (unfold results, entries_read; now rewrite kv_getMany_length).
  split; [|split; [|split; [|split; [|split; [|split]]]]].
  - intros i k Hk.
    pose proof (kv_getMany_lookup (db_at_read st) keys i k Hk) as He.
    destruct (lookup_lt_is_Some_2 newValues i) as [v Hv].
    { rewrite Hlen. eapply lookup_lt_Some; eauto. }
    exists (kv_get (db_at_read st) k), v.
    destruct (expected_tx_lookup results newValues i _ v He Hv) as [H0 H1].
    rewrite kv_get_key in H0, H1. rewrite kv_get_key. auto.
  - unfold tx. rewrite expected_tx_length by assumption. now rewrite <- Hlen', Hlen.
  - unfold kv_commit.
    rewrite <- (expected_tx_checks d results newValues Hlen'). fold tx.
    destruct (forallb (check_holds d) tx); cbn; split; auto; discriminate.
  - unfold kv_commit. destruct (forallb (check_holds d) tx); [discriminate|reflexivity].
  - unfold kv_commit. destruct (forallb (check_holds d) tx); [|discriminate].
    intros _ Hnd i k v Hk Hv. cbn [snd rows].
    pose proof (kv_getMany_lookup (db_at_read st) keys i k Hk) as He.
    rewrite <- Hkeys in Hnd.
    rewrite <- (kv_get_key (db_at_read st) k).
    now apply (expected_tx_sets _ results newValues i).
  - intros k Hk. unfold kv_commit.
    destruct (forallb (check_holds d) tx); [|reflexivity]. cbn [snd rows].
    apply expected_tx_frame. now rewrite Hkeys.
  - exists (mkState (snd (kv_commit d tx))
              (snd (deliver (db_at_read st) (snd (deliver (db st) (others st)))))
              (heap st ++ [tr_mutated (callback_run keys f st); map value results])
              (tr_state (callback_run keys f st))
              (trace st ++
               [EvGetMany keys results;
                EvUpdate (map value results) (tr_mutated (callback_run keys f st)) []
                         (JArr newValues);
                EvCommit tx (fst (kv_commit d tx))])).
    split; [reflexivity|]. split; [reflexivity|].
    rewrite setSafeAtomicMany_unfold. unfold attempt. cbv zeta.
    unfold callback_run, entries_read, db_at_read in Hab, Hres.
    rewrite Hab, Hres. cbn [run_aborts foldl aborting truthy negb get_length strict_neq_num].
    rewrite kv_getMany_length, Hlen, Z.eqb_refl. cbn [negb].
    rewrite build_tx_expected
      by (rewrite kv_getMany_length; exact Hlen).
    rewrite <- (app_assoc (trace st)). cbn [app].
    fold (db_at_read st). fold (entries_read keys st). fold results. fold tx.
    fold (db_at_commit st). fold d.
    destruct (kv_commit d tx) as [[|] d3]; cbn [fst snd respond];
      [reflexivity|destruct (default 10 retryCount =? 0); reflexivity].
Qed.

Lemma commit_is_one_atomic_check_and_set_witness :
  let st := start (bank 100 50) [] in
  tr_aborts (callback_run [kA; kB] transfer st) = [] /\
  resolve (callback_run [kA; kB] transfer st) = JArr [JNum 70; JNum 80] /\
  length [JNum 70; JNum 80] = length [kA; kB] /\
  exists st1,
    db st1 = snd (kv_commit (db_at_commit st)
                    (expected_tx (entries_read [kA; kB] st) [JNum 70; JNum 80])) /\
    rows (db st1) !! kA = Some (JNum 70, 3%nat) /\
    rows (db st1) !! kB = Some (JNum 80, 3%nat) /\
    setSafeAtomicMany 1 [kA; kB] transfer None st =
      (Returned (mkMany true None (JArr [JNum 70; JNum 80])), st1).
Proof.
  intros st.
  assert (H1 : tr_aborts (callback_run [kA; kB] transfer st) = []) by reflexivity.
  assert (H2 : resolve (callback_run [kA; kB] transfer st) = JArr [JNum 70; JNum 80])
    by (vm_compute; reflexivity).
  assert (H3 : length [JNum 70; JNum 80] = length [kA; kB]) by reflexivity.
  refine (conj H1 (conj H2 (conj H3 _))).
  destruct (commit_is_one_atomic_check_and_set 0 [kA; kB] transfer None st _ H1 H2 H3)
    as (_ & _ & _ & _ & _ & _ & st1 & Hdb & _ & Hrun).
  exists st1. split; [exact Hdb|].
  rewrite Hdb. repeat split; try (vm_compute; reflexivity).
  exact Hrun.
Defined.

(** C2 as amended. When the callback invokes [abort] during a call, that
    pass is the last one: the call returns [{ok: false, error, values:
    original}] with the values of the read that opened the pass; the error is
    the last reason handed to [abort] in that pass that is not the empty
    string -- so the reason of the last call when that one is not empty --
    and [null] when there is none. The trace ends with that read and the
    callback, so no commit was sent in the pass, no commit of the call went
    through, and the database holds only what other clients wrote
    meanwhile. *)
Theorem abort_returns_original_values_without_commit
    {C : Type} fuel keys (f : Transform C) retryCount st o st' t
    vals mutated aborts upd :
  setSafeAtomicMany fuel keys f retryCount st = (o, st') ->
  trace st' = trace st ++ t ->
  In (EvUpdate vals mutated aborts upd) t ->
  aborts <> [] ->
  exists pre es consumed,
    t = pre ++ [EvGetMany keys es; EvUpdate vals mutated aborts upd] /\
    vals = map value es /\
    map key es = keys /\
    o = Returned (mkMany false (last_nonempty aborts) (JArr (map value es))) /\
    (forall r, last aborts = Some (Some r) -> r <> "" ->
       o = Returned (mkMany false (Some r) (JArr (map value es)))) /\
    (forall tx b, In (EvCommit tx b) t -> b = false) /\
    others st = consumed ++ others st' /\
    db st' = replay (db st) consumed.
Proof.
  intros Hrun Ht Hin Hab.
  destruct (setSafeAtomicMany_rejected _ _ _ _ _ _ _ _ _ _ _ _ Hrun Ht Hin
              (rejected_when_aborting _ _ _ Hab))
    as (pre & es & consumed & Hpre & Hv & Hk & Hc & Ho & Hothers & Hdb).
  exists pre, es, consumed.
  apply aborting_iff in Hab.
  rewrite Hab, abortReason_last_nonempty in Ho. subst vals.
  repeat split; try assumption.
  intros r Hlast Hr. now rewrite Ho, (last_nonempty_of_last_call aborts r Hlast Hr).
Qed.

Lemma abort_returns_original_values_without_commit_witness :
  let run := setSafeAtomicMany 11 [kA; kB] transfer None (start (bank 20 50) (rival 1)) in
  let t := trace (snd run) in
  run = (fst run, snd run) /\
  trace (snd run) = trace (start (bank 20 50) (rival 1)) ++ t /\
  In (EvUpdate [JNum 20; JNum 50] [JNum 20; JNum 50] [Some "insufficient funds"] JUndefined) t /\
  [Some "insufficient funds"] <> [] /\
  exists pre es consumed,
    t = pre ++ [EvGetMany [kA; kB] es;
                EvUpdate [JNum 20; JNum 50] [JNum 20; JNum 50]
                         [Some "insufficient funds"] JUndefined] /\
    [JNum 20; JNum 50] = map value es /\
    map key es = [kA; kB] /\
    fst run =
      Returned (mkMany false (Some "insufficient funds") (JArr (map value es))) /\
    (forall r, last [Some "insufficient funds"] = Some (Some r) -> r <> "" ->
       fst run = Returned (mkMany false (Some r) (JArr (map value es)))) /\
    (forall tx b, In (EvCommit tx b) t -> b = false) /\
    others (start (bank 20 50) (rival 1)) = consumed ++ others (snd run) /\
    db (snd run) = replay (db (start (bank 20 50) (rival 1))) consumed.
Proof.
  intros run t.
  assert (H1 : run = (fst run, snd run)) by (vm_compute; reflexivity).
  assert (H2 : trace (snd run) = trace (start (bank 20 50) (rival 1)) ++ t) by reflexivity.
  assert (H3 : In (EvUpdate [JNum 20; JNum 50] [JNum 20; JNum 50]
                            [Some "insufficient funds"] JUndefined) t)
    by (vm_compute; right; left; reflexivity).
  assert (H4 : [Some "insufficient funds"] <> []) by discriminate.
  refine (conj H1 (conj H2 (conj H3 (conj H4 _)))).
  exact (abort_returns_original_values_without_commit _ _ _ _ _ _ _ _ _ _ _ _ H1 H2 H3 H4).
Defined.

(** C2 as stated fails: after the single call [abort("")] the reason supplied
    is the empty string, and the call reports [error: null]. *)
Lemma empty_abort_reason_is_reported_as_null :
  In (EvUpdate [JNum 100; JNum 50] [JNum 100; JNum 50] [Some ""] JUndefined)
     (trace (snd aborted_with_empty_reason_run)) /\
  last_supplied [Some ""] = Some "" /\
  exists resp,
    fst aborted_with_empty_reason_run = Returned resp /\
    ok resp = false /\
    values resp = JArr [JNum 100; JNum 50] /\
    error resp = None /\
    error resp <> last_supplied [Some ""].
Proof.
  split; [vm_compute; right; left; reflexivity|].
  split; [reflexivity|].
  exists (mkMany false None (JArr [JNum 100; JNum 50])).
  repeat split; try (vm_compute; reflexivity).
  vm_compute. discriminate.
Qed.

(** C3. With a retry count [n >= 0], when the commit fails once more than
    there are retries -- the failure that finds the remaining count at 0 --
    the call ends there and returns [{ok: false, error: "Failed to commit
    transaction", values: original}], the values being those of the read that
    opened this last pass, whatever the callback returned in it. *)
Theorem exhausted_retries_report_values_of_last_read
    {C : Type} fuel keys (f : Transform C) retryCount st o st' t :
  setSafeAtomicMany fuel keys f retryCount st = (o, st') ->
  trace st' = trace st ++ t ->
  0 <= default 10 retryCount ->
  Z.of_nat (failures t) = default 10 retryCount + 1 ->
  exists pre es mutated aborts upd,
    t = pre ++ [EvGetMany keys es; EvUpdate (map value es) mutated aborts upd;
                EvCommit (build_tx es upd) false] /\
    map key es = keys /\
    o = Returned (mkMany false (Some err_commit) (JArr (map value es))).
Proof.
  intros Hrun Ht Hpos Hfail.
  destruct (setSafeAtomicMany_shape _ _ _ _ _ _ _ Hrun) as (t' & Ht' & Hshape).
  rewrite Ht in Ht'. apply app_inv_head in Ht'. subst t'.
  destruct (Shape_failures _ _ _ _ Hshape Hpos) as [_ Hex].
  exact (Hex Hfail).
Qed.

Lemma exhausted_retries_report_values_of_last_read_witness :
  let st := start (bank 100 50) (rival 2) in
  let run := setSafeAtomicMany 2 [kA; kB] transfer (Some 1) st in
  let t := trace (snd run) in
  run = (fst run, snd run) /\
  trace (snd run) = trace st ++ t /\
  0 <= default 10 (Some 1) /\
  Z.of_nat (failures t) = default 10 (Some 1) + 1 /\
  exists pre es mutated aborts upd,
    t = pre ++ [EvGetMany [kA; kB] es; EvUpdate (map value es) mutated aborts upd;
                EvCommit (build_tx es upd) false] /\
    map key es = [kA; kB] /\
    fst run = Returned (mkMany false (Some err_commit) (JArr (map value es))).
Proof.
  intros st run t.
  assert (H1 : run = (fst run, snd run)) by (vm_compute; reflexivity).
  assert (H2 : trace (snd run) = trace st ++ t) by reflexivity.
  assert (H3 : 0 <= default 10 (Some 1)) by (cbn; lia).
  assert (H4 : Z.of_nat (failures t) = default 10 (Some 1) + 1) by (vm_compute; reflexivity).
  refine (conj H1 (conj H2 (conj H3 (conj H4 _)))).
  exact (exhausted_retries_report_values_of_last_read _ _ _ _ _ _ _ _ H1 H2 H3 H4).
Defined.

(** C4. With a retry count [n >= 0] (and fuel for [n + 1] passes) the call
    terminates after at most [n + 1] reads and at most [n + 1] commits, of
    which at most [n + 1] fail. Every commit is built from the entries read
    in its own pass, and a failed commit that does not end the call is
    followed by a new read of all the keys: a retry is the whole function run
    again, with the count lowered by one, from the state the failed pass
    left, and every run opens with a read of the database as it is then. *)
Theorem retries_are_bounded_and_read_afresh
    {C : Type} fuel keys (f : Transform C) retryCount st o st' t :
  0 <= default 10 retryCount ->
  (Z.to_nat (default 10%Z retryCount) < fuel)%nat ->
  setSafeAtomicMany fuel keys f retryCount st = (o, st') ->
  trace st' = trace st ++ t ->
  o <> Diverged /\
  Z.of_nat (reads t) <= default 10 retryCount + 1 /\
  Z.of_nat (commits t) <= default 10 retryCount + 1 /\
  Z.of_nat (failures t) <= default 10 retryCount + 1 /\
  (forall pre tx b post,
     t = pre ++ EvCommit tx b :: post ->
     exists pre' es mutated aborts upd,
       pre = pre' ++ [EvGetMany keys es; EvUpdate (map value es) mutated aborts upd] /\
       map key es = keys /\
       tx = build_tx es upd /\
       (post = [] \/ exists es' post', b = false /\ post = EvGetMany keys es' :: post')) /\
  (forall fuel' st0 original,
     fst (attempt keys f st0) = Conflict original ->
     default 10 retryCount <> 0 ->
     setSafeAtomicMany (S fuel') keys f retryCount st0 =
     setSafeAtomicMany fuel' keys f (Some (default 10 retryCount - 1))
                       (snd (attempt keys f st0))) /\
  (forall fuel' retryCount' st0 o0 st0',
     setSafeAtomicMany (S fuel') keys f retryCount' st0 = (o0, st0') ->
     exists t0, trace st0' = trace st0 ++ EvGetMany keys (entries_read keys st0) :: t0).
Proof.
  intros Hpos Hfuel Hrun Ht.
  destruct (setSafeAtomicMany_shape _ _ _ _ _ _ _ Hrun) as (t' & Ht' & Hshape).
  rewrite Ht in Ht'. apply app_inv_head in Ht'. subst t'.
  destruct (Shape_counts _ _ _ _ Hshape Hpos) as (Hr & Hc & _ & _).
  destruct (Shape_failures _ _ _ _ Hshape Hpos) as [Hf _].
  split; [exact (setSafeAtomicMany_total _ _ _ _ _ _ _ Hrun Hpos Hfuel)|].
  repeat (split; [assumption|]).
  split; [|split].
  - intros pre tx b post Heq.
    exact (Shape_commit_after_read _ _ _ _ _ _ _ _ Hshape Heq).
  - intros fuel' st0 original Hconflict Hne.
    rewrite setSafeAtomicMany_unfold, Hconflict. cbn [respond].
    apply Z.eqb_neq in Hne. now rewrite Hne.
  - intros fuel' retryCount' st0 o0 st0' Hrun0.
    exact (setSafeAtomicMany_first_read _ _ _ _ _ _ _ Hrun0).
Qed.

Lemma retries_are_bounded_and_read_afresh_witness :
  let st := start (bank 100 50) (rival 2) in
  let run := setSafeAtomicMany 4 [kA; kB] transfer (Some 3) st in
  0 <= default 10 (Some 3) /\
  (Z.to_nat (default 10%Z (Some 3%Z)) < 4)%nat /\
  run = (fst run, snd run) /\
  trace (snd run) = trace st ++ trace (snd run) /\
  fst run <> Diverged /\
  Z.of_nat (reads (trace (snd run))) <= default 10 (Some 3) + 1 /\
  Z.of_nat (commits (trace (snd run))) <= default 10 (Some 3) + 1 /\
  Z.of_nat (failures (trace (snd run))) <= default 10 (Some 3) + 1.
Proof.
  intros st run.
  assert (H1 : 0 <= default 10 (Some 3)) by (cbn; lia).
  assert (H2 : (Z.to_nat (default 10%Z (Some 3%Z)) < 4)%nat) by (cbn; lia).
  assert (H3 : run = (fst run, snd run)) by (vm_compute; reflexivity).
  assert (H4 : trace (snd run) = trace st ++ trace (snd run)) by reflexivity.
  refine (conj H1 (conj H2 (conj H3 (conj H4 _)))).
  destruct (retries_are_bounded_and_read_afresh _ _ _ _ _ _ _ _ H1 H2 H3 H4)
    as (Hd & Hr & Hc & Hf & _).
  exact (conj Hd (conj Hr (conj Hc Hf))).
Defined.

(** C5. A call without the retry count behaves as the call with a retry count
    of 10 (the default of the parameter; the comment above the function still
    says 5): same outcome, same final state; it reads and commits at most 11
    times, and once the commit has failed 11 times it gives up. *)
Theorem omitted_retry_count_is_ten
    {C : Type} fuel keys (f : Transform C) st o st' t :
  setSafeAtomicMany fuel keys f None st = (o, st') ->
  trace st' = trace st ++ t ->
  setSafeAtomicMany fuel keys f (Some 10) st = (o, st') /\
  Z.of_nat (reads t) <= 11 /\
  Z.of_nat (commits t) <= 11 /\
  Z.of_nat (failures t) <= 11 /\
  (failures t = 11%nat ->
   exists es, o = Returned (mkMany false (Some err_commit) (JArr (map value es)))).
Proof.
  intros Hrun Ht.
  assert (Hsame : setSafeAtomicMany fuel keys f (Some 10) st = (o, st')).
  { rewrite <- Hrun. destruct fuel; reflexivity. }
  split; [exact Hsame|].
  destruct (setSafeAtomicMany_shape _ _ _ _ _ _ _ Hrun) as (t' & Ht' & Hshape).
  rewrite Ht in Ht'. apply app_inv_head in Ht'. subst t'.
  cbn [default from_option] in Hshape. unfold id in Hshape.
  destruct (Shape_counts _ _ _ _ Hshape ltac:(lia)) as (Hr & Hc & _ & _).
  destruct (Shape_failures _ _ _ _ Hshape ltac:(lia)) as [Hf Hex].
  repeat (split; [lia|]).
  intros H11. destruct Hex as (pre & es & m & a & u & _ & _ & Ho); [lia|].
  now exists es.
Qed.

Lemma omitted_retry_count_is_ten_witness :
  let st := start (bank 100 50) (rival 11) in
  let run := setSafeAtomicMany 11 [kA; kB] transfer None st in
  run = (fst run, snd run) /\
  trace (snd run) = trace st ++ trace (snd run) /\
  setSafeAtomicMany 11 [kA; kB] transfer (Some 10) st = (fst run, snd run) /\
  failures (trace (snd run)) = 11%nat /\
  exists es, fst run = Returned (mkMany false (Some err_commit) (JArr (map value es))).
Proof.
  intros st run.
  assert (H1 : run = (fst run, snd run)) by (vm_compute; reflexivity).
  assert (H2 : trace (snd run) = trace st ++ trace (snd run)) by reflexivity.
  assert (H3 : failures (trace (snd run)) = 11%nat) by (vm_compute; reflexivity).
  refine (conj H1 (conj H2 _)).
  destruct (omitted_retry_count_is_ten _ _ _ _ _ _ _ H1 H2) as (Hs & _ & _ & _ & Hex).
  exact (conj Hs (conj H3 (Hex H3))).
Defined.

(** C6. When the callback neither invokes [abort] nor returns a sequence of
    values, the call throws in that very pass -- the callback is the last
    event of the trace, so nothing is retried and no commit is sent -- and the
    database holds only what other clients wrote meanwhile. An answer that is
    falsy gets the message about the missing array. *)
Theorem callback_without_sequence_throws
    {C : Type} fuel keys (f : Transform C) retryCount st o st' t vals mutated upd :
  setSafeAtomicMany fuel keys f retryCount st = (o, st') ->
  trace st' = trace st ++ t ->
  In (EvUpdate vals mutated [] upd) t ->
  is_sequence upd = false ->
  exists pre es consumed,
    t = pre ++ [EvGetMany keys es; EvUpdate vals mutated [] upd] /\
    o = Threw (if truthy upd then err_count else err_no_array) /\
    (forall tx b, In (EvCommit tx b) t -> b = false) /\
    others st = consumed ++ others st' /\
    db st' = replay (db st) consumed.
Proof.
  intros Hrun Ht Hin Hseq.
  destruct (setSafeAtomicMany_rejected _ _ _ _ _ _ _ _ _ _ _ _ Hrun Ht Hin
              (rejected_when_not_sequence _ _ Hseq))
    as (pre & es & consumed & Hpre & _ & _ & Hc & Ho & Hothers & Hdb).
  exists pre, es, consumed. rewrite aborting_nil in Ho.
  repeat split; try assumption.
  rewrite Ho. now destruct (truthy upd).
Qed.

Lemma callback_without_sequence_throws_witness :
  let st := start (bank 100 50) (rival 1) in
  let run := setSafeAtomicMany 11 [kA; kB] returns_nothing None st in
  let t := trace (snd run) in
  run = (fst run, snd run) /\
  trace (snd run) = trace st ++ t /\
  In (EvUpdate [JNum 100; JNum 50] [JNum 100; JNum 50] [] JUndefined) t /\
  is_sequence JUndefined = false /\
  exists pre es consumed,
    t = pre ++ [EvGetMany [kA; kB] es;
                EvUpdate [JNum 100; JNum 50] [JNum 100; JNum 50] [] JUndefined] /\
    fst run = Threw (if truthy JUndefined then err_count else err_no_array) /\
    (forall tx b, In (EvCommit tx b) t -> b = false) /\
    others st = consumed ++ others (snd run) /\
    db (snd run) = replay (db st) consumed.
Proof.
  intros st run t.
  assert (H1 : run = (fst run, snd run)) by (vm_compute; reflexivity).
  assert (H2 : trace (snd run) = trace st ++ t) by reflexivity.
  assert (H3 : In (EvUpdate [JNum 100; JNum 50] [JNum 100; JNum 50] [] JUndefined) t)
    by (vm_compute; right; left; reflexivity).
  assert (H4 : is_sequence JUndefined = false) by reflexivity.
  refine (conj H1 (conj H2 (conj H3 (conj H4 _)))).
  exact (callback_without_sequence_throws _ _ _ _ _ _ _ _ _ _ _ H1 H2 H3 H4).
Defined.

(** What the source takes for a sequence: a string as long as the batch
    passes both tests of the source, and its characters are committed. *)
Example string_of_matching_length_is_committed :
  fst (setSafeAtomicMany 11 [kA; kB]
         (fun _ vals => mkRun [] vals (RetVal (JStr "ab")) tt) None
         (start (bank 100 50) []))
  = Returned (mkMany true None (JStr "ab")).
Proof. vm_compute. reflexivity. Qed.

(** C7. When the callback returns, without aborting, a sequence whose length
    is not the number of keys, the call throws in that very pass, nothing is
    retried, no commit is sent, and the database holds only what other clients
    wrote meanwhile. An array is truthy, so for an array the message is the one
    about the count. *)
Theorem wrong_length_throws
    {C : Type} fuel keys (f : Transform C) retryCount st o st' t vals mutated upd m :
  setSafeAtomicMany fuel keys f retryCount st = (o, st') ->
  trace st' = trace st ++ t ->
  In (EvUpdate vals mutated [] upd) t ->
  get_length upd = JNum m ->
  m <> Z.of_nat (length keys) ->
  exists pre es consumed,
    t = pre ++ [EvGetMany keys es; EvUpdate vals mutated [] upd] /\
    o = Threw (if truthy upd then err_count else err_no_array) /\
    (forall tx b, In (EvCommit tx b) t -> b = false) /\
    others st = consumed ++ others st' /\
    db st' = replay (db st) consumed.
Proof.
  intros Hrun Ht Hin Hlen Hm.
  destruct (setSafeAtomicMany_rejected _ _ _ _ _ _ _ _ _ _ _ _ Hrun Ht Hin
              (rejected_when_wrong_length _ _ _ Hlen Hm))
    as (pre & es & consumed & Hpre & _ & _ & Hc & Ho & Hothers & Hdb).
  exists pre, es, consumed. rewrite aborting_nil in Ho.
  repeat split; try assumption.
  rewrite Ho. now destruct (truthy upd).
Qed.

Lemma wrong_length_throws_witness :
  let st := start (bank 100 50) (rival 1) in
  let run := setSafeAtomicMany 11 [kA; kB] returns_one_value None st in
  let t := trace (snd run) in
  run = (fst run, snd run) /\
  trace (snd run) = trace st ++ t /\
  In (EvUpdate [JNum 100; JNum 50] [JNum 100; JNum 50] [] (JArr [JNum 1])) t /\
  get_length (JArr [JNum 1]) = JNum 1 /\
  1 <> Z.of_nat (length [kA; kB]) /\
  exists pre es consumed,
    t = pre ++ [EvGetMany [kA; kB] es;
                EvUpdate [JNum 100; JNum 50] [JNum 100; JNum 50] [] (JArr [JNum 1])] /\
    fst run = Threw (if truthy (JArr [JNum 1]) then err_count else err_no_array) /\
    (forall tx b, In (EvCommit tx b) t -> b = false) /\
    others st = consumed ++ others (snd run) /\
    db (snd run) = replay (db st) consumed.
Proof.
  intros st run t.
  assert (H1 : run = (fst run, snd run)) by (vm_compute; reflexivity).
  assert (H2 : trace (snd run) = trace st ++ t) by reflexivity.
  assert (H3 : In (EvUpdate [JNum 100; JNum 50] [JNum 100; JNum 50] [] (JArr [JNum 1])) t)
    by (vm_compute; right; left; reflexivity).
  assert (H4 : get_length (JArr [JNum 1]) = JNum 1) by reflexivity.
  assert (H5 : 1 <> Z.of_nat (length [kA; kB])) by (cbn; lia).
  refine (conj H1 (conj H2 (conj H3 (conj H4 (conj H5 _))))).
  exact (wrong_length_throws _ _ _ _ _ _ _ _ _ _ _ _ H1 H2 H3 H4 H5).
Defined.

(** C8 as amended. When the callback invokes [abort] more than once in a pass,
    the pass is aborted and the reported error is the last reason among those
    calls that is not the empty string ([null] when there is none): an empty
    reason, like a missing one, leaves the recorded reason as it was. *)
Theorem last_nonempty_abort_reason_wins
    {C : Type} fuel keys (f : Transform C) retryCount st o st' t
    vals mutated aborts upd :
  setSafeAtomicMany fuel keys f retryCount st = (o, st') ->
  trace st' = trace st ++ t ->
  In (EvUpdate vals mutated aborts upd) t ->
  (1 < length aborts)%nat ->
  aborting (run_aborts aborts) = true /\
  o = Returned (mkMany false (last_nonempty aborts) (JArr vals)).
Proof.
  intros Hrun Ht Hin Hlen.
  assert (Hab : aborts <> []) by (intros ->; cbn in Hlen; lia).
  destruct (setSafeAtomicMany_rejected _ _ _ _ _ _ _ _ _ _ _ _ Hrun Ht Hin
              (rejected_when_aborting _ _ _ Hab))
    as (pre & es & consumed & _ & _ & _ & _ & Ho & _).
  apply aborting_iff in Hab. rewrite Hab in Ho.
  now rewrite <- abortReason_last_nonempty.
Qed.

Lemma last_nonempty_abort_reason_wins_witness :
  let st := start (bank 100 50) [] in
  let calls := [Some "first"; None; Some "second"; Some ""] in
  let run := setSafeAtomicMany 11 [kA; kB] (aborts_with calls) None st in
  let t := trace (snd run) in
  run = (fst run, snd run) /\
  trace (snd run) = trace st ++ t /\
  In (EvUpdate [JNum 100; JNum 50] [JNum 100; JNum 50] calls JUndefined) t /\
  (1 < length calls)%nat /\
  aborting (run_aborts calls) = true /\
  fst run = Returned (mkMany false (last_nonempty calls) (JArr [JNum 100; JNum 50])).
Proof.
  intros st calls run t.
  assert (H1 : run = (fst run, snd run)) by (vm_compute; reflexivity).
  assert (H2 : trace (snd run) = trace st ++ t) by reflexivity.
  assert (H3 : In (EvUpdate [JNum 100; JNum 50] [JNum 100; JNum 50] calls JUndefined) t)
    by (vm_compute; right; left; reflexivity).
  assert (H4 : (1 < length calls)%nat) by (cbn; lia).
  refine (conj H1 (conj H2 (conj H3 (conj H4 _)))).
  exact (last_nonempty_abort_reason_wins _ _ _ _ _ _ _ _ _ _ _ _ H1 H2 H3 H4).
Defined.

(** C8 as stated fails: after [abort("first")] and [abort("")] the last reason
    supplied is the empty string, and the call reports ["first"]. *)
Lemma last_supplied_reason_not_reported :
  In (EvUpdate [JNum 100; JNum 50] [JNum 100; JNum 50] [Some "first"; Some ""] JUndefined)
     (trace (snd aborted_twice_run)) /\
  last_supplied [Some "first"; Some ""] = Some "" /\
  exists resp,
    fst aborted_twice_run = Returned resp /\
    ok resp = false /\
    error resp = Some "first" /\
    error resp <> last_supplied [Some "first"; Some ""].
Proof.
  split; [vm_compute; right; left; reflexivity|].
  split; [reflexivity|].
  exists (mkMany false (Some "first") (JArr [JNum 100; JNum 50])).
  repeat split; try (vm_compute; reflexivity).
  vm_compute. discriminate.
Qed.

(** C9. [setSafeAtomic key fn budget] is [setSafeAtomicMany] on the batch
    [[key]] with the callback [values => [fn(values[0], abort)]] and the same
    budget, its result unwrapped: same final state, same thrown error, same
    [ok] and [error], and [value] is the one element of [values]. *)
Theorem single_key_is_multi_key_unwrapped
    {C : Type} fuel (k : Key) (fn : SingleTransform C) budget st :
  setSafeAtomic fuel k fn budget st = updateOne_by_updateMany fuel k fn budget st /\
  snd (setSafeAtomic fuel k fn budget st) =
    snd (setSafeAtomicMany fuel [k] (wrap_single fn) budget st) /\
  match fst (setSafeAtomicMany fuel [k] (wrap_single fn) budget st) with
  | Returned many =>
      exists v,
        values many = JArr [v] /\
        fst (setSafeAtomic fuel k fn budget st) =
          Returned (Single.mkSingle (ok many) (error many) v)
  | Threw msg => fst (setSafeAtomic fuel k fn budget st) = Threw msg
  | Diverged => fst (setSafeAtomic fuel k fn budget st) = Diverged
  end.
Proof.
  unfold setSafeAtomic, updateOne_by_updateMany, bind, ret, wrap_single.
  cbn [get_index].
  destruct (setSafeAtomicMany fuel [k] _ budget st) as [[many|msg|] st1] eqn:Hrun;
    cbn [fst snd unwrap_first]; repeat split.
  destruct (single_key_values fuel k fn budget st many st1 Hrun) as [v Hv].
  exists v. split; [exact Hv|]. now rewrite Hv.
Qed.



(** * The database under foreign writes *)

Section Interference.

Lemma interfere_snoc (d : Db) (batch : list Write) (w : Write) :
  interfere d (batch ++ [w]) = other_write (interfere d batch) w.
Proof. unfold interfere. now rewrite foldl_app. Qed.

Lemma other_write_clock (d : Db) (w : Write) : clock (other_write d w) = S (clock d).
Proof. destruct w as [k [v|]]; reflexivity. Qed.

Lemma other_write_wf (d : Db) (w : Write) : db_wf d -> db_wf (other_write d w).
Proof.
  unfold db_wf. intros Hwf. destruct w as [k [v|]]; cbn [other_write rows clock].
  - apply map_Forall_insert_2; [cbn; lia|].
    eapply map_Forall_impl; [exact Hwf|]. cbn. intros; lia.
  - apply map_Forall_delete.
    eapply map_Forall_impl; [exact Hwf|]. cbn. intros; lia.
Qed.

Lemma interfere_wf (d : Db) (batch : list Write) : db_wf d -> db_wf (interfere d batch).
Proof.
  intros Hwf. induction batch as [|w batch IH] using rev_ind; [exact Hwf|].
  rewrite interfere_snoc. now apply other_write_wf.
Qed.

Lemma interfere_clock (d : Db) (batch : list Write) :
  (clock d <= clock (interfere d batch))%nat.
Proof.
  induction batch as [|w batch IH] using rev_ind; [reflexivity|].
  rewrite interfere_snoc, other_write_clock. lia.
Qed.

Lemma other_write_other (d : Db) (w : Write) (k : Key) :
  fst w <> k -> rows (other_write d w) !! k = rows d !! k.
Proof.
  destruct w as [k' [v|]]; cbn [fst other_write rows]; intros Hne.
  - now apply lookup_insert_ne.
  - now apply lookup_delete_ne.
Qed.

(** A batch that does not write to [k] leaves its row alone. *)
Lemma interfere_untouched (d : Db) (batch : list Write) (k : Key) :
  writes_to k batch = [] -> rows (interfere d batch) !! k = rows d !! k.
Proof.
  unfold writes_to.
  induction batch as [|w batch IH] using rev_ind; [reflexivity|].
  rewrite List.filter_app, interfere_snoc. cbn [List.filter].
  destruct (bool_decide (fst w = k)) eqn:Hw.
  - intros H. now apply app_eq_nil in H as [_ ?].
  - rewrite app_nil_r. intros H. apply bool_decide_eq_false in Hw.
    rewrite other_write_other by assumption. now apply IH.
Qed.

(** If the versionstamp of [k] is what it was, so is its row: a foreign set
    always brings a versionstamp that was never used before. *)
Lemma interfere_same_versionstamp (d : Db) (batch : list Write) (k : Key) :
  db_wf d ->
  snd <$> rows (interfere d batch) !! k = snd <$> rows d !! k ->
  rows (interfere d batch) !! k = rows d !! k.
Proof.
  intros Hwf.
  induction batch as [|w batch IH] using rev_ind; [reflexivity|].
  rewrite interfere_snoc.
  destruct (decide (fst w = k)) as [Hw|Hw].
  - destruct w as [k' [v|]]; cbn [fst] in Hw; subst k'; cbn [other_write rows].
    + rewrite lookup_insert_eq. cbn. intros Hvs.
      destruct (rows d !! k) as [[v0 vs0]|] eqn:Hrow; [|discriminate].
      cbn in Hvs. injection Hvs as Hvs.
      pose proof (Hwf k (v0, vs0) Hrow) as Hle. cbn in Hle.
      pose proof (interfere_clock d batch). lia.
    + rewrite lookup_delete_eq. cbn.
      destruct (rows d !! k) as [[v0 vs0]|]; [discriminate|reflexivity].
  - rewrite other_write_other by assumption. exact IH.
Qed.

(** When the last write of the batch to [k] is a set, the versionstamp of [k]
    is no longer what it was. *)
Lemma interfere_set_changes_versionstamp (d : Db) (batch : list Write) (k : Key) v :
  db_wf d ->
  last (writes_to k batch) = Some (k, Some v) ->
  snd <$> rows (interfere d batch) !! k <> snd <$> rows d !! k.
Proof.
  intros Hwf. unfold writes_to.
  induction batch as [|w batch IH] using rev_ind; [discriminate|].
  rewrite List.filter_app, interfere_snoc. cbn [List.filter].
  destruct (bool_decide (fst w = k)) eqn:Hw.
  - rewrite last_snoc. intros [= ->]. cbn [other_write rows].
    rewrite lookup_insert_eq. cbn. intros Hvs.
    destruct (rows d !! k) as [[v0 vs0]|] eqn:Hrow; [|discriminate].
    cbn in Hvs. injection Hvs as Hvs.
    pose proof (Hwf k (v0, vs0) Hrow) as Hle. cbn in Hle.
    pose proof (interfere_clock d batch). lia.
  - rewrite app_nil_r. intros Hlast. apply bool_decide_eq_false in Hw.
    rewrite other_write_other by assumption. now apply IH.
Qed.

Lemma kv_commit_wf (d : Db) (tx : AtomicOperation) : db_wf d -> db_wf (snd (kv_commit d tx)).
Proof.
  unfold kv_commit. destruct (forallb (check_holds d) tx); [|auto].
  cbn [snd]. unfold db_wf. cbn [rows clock]. intros Hwf.
  assert (Hgen : forall r : gmap Key (JsValue * Versionstamp),
            map_Forall (fun _ row => (snd row <= S (clock d))%nat) r ->
            map_Forall (fun _ row => (snd row <= S (clock d))%nat)
                       (foldl (apply_mutation (S (clock d))) r tx)).
  { induction tx as [|op tx IH]; intros r Hr; [exact Hr|].
    cbn [foldl]. apply IH. destruct op as [k vs|k v]; cbn [apply_mutation]; [exact Hr|].
    apply map_Forall_insert_2; [cbn; lia|exact Hr]. }
  apply Hgen. eapply map_Forall_impl; [exact Hwf|]. cbn. intros; lia.
Qed.

Lemma deliver_interfere (d : Db) (pending : list (list Write)) :
  fst (deliver d pending) = interfere d (default [] (pending !! 0%nat)).
Proof. destruct pending; reflexivity. Qed.

Lemma deliver_rest (d : Db) (pending : list (list Write)) :
  snd (deliver d pending) = drop 1 pending.
Proof. destruct pending; reflexivity. Qed.

Lemma kv_get_versionstamp (d : Db) (k : Key) :
  versionstamp (kv_get d k) = snd <$> rows d !! k.
Proof. unfold kv_get. destruct (rows d !! k) as [[v vs]|]; reflexivity. Qed.

Lemma kv_get_ext (d d' : Db) (k : Key) :
  rows d' !! k = rows d !! k -> kv_get d' k = kv_get d k.
Proof. unfold kv_get. now intros ->. Qed.

Lemma kv_getMany_ext (d d' : Db) (keys : list Key) :
  (forall k, In k keys -> rows d' !! k = rows d !! k) ->
  kv_getMany d' keys = kv_getMany d keys.
Proof.
  intros H. unfold kv_getMany. apply map_ext_in. intros k Hk. now apply kv_get_ext, H.
Qed.

End Interference.

Section StateBatches.
Context {C : Type}.
Implicit Types (st : State C).

Lemma db_at_read_interfere st : db_at_read st = interfere (db st) (read_batch st).
Proof. apply deliver_interfere. Qed.

Lemma db_at_commit_interfere st :
  db_at_commit st = interfere (db_at_read st) (commit_batch st).
Proof.
  unfold db_at_commit, commit_batch. rewrite deliver_interfere, deliver_rest.
  now rewrite lookup_drop.
Qed.

Lemma db_at_read_wf st : db_wf (db st) -> db_wf (db_at_read st).
Proof. rewrite db_at_read_interfere. apply interfere_wf. Qed.

Lemma db_at_commit_wf st : db_wf (db st) -> db_wf (db_at_commit st).
Proof. intros H. rewrite db_at_commit_interfere. now apply interfere_wf, db_at_read_wf. Qed.

End StateBatches.

(** * A pass whose callback answer is accepted *)

Section AcceptedPass.
Context {C : Type}.
Implicit Types (st : State C) (f : Transform C) (keys : list Key).

Lemma build_tx_from_fn (results : list KvEntryMaybe) (g : nat -> JsValue) :
  forall len s tx0,
    (s + len = length results)%nat ->
    foldl (fun tx i =>
             match results !! i with
             | Some r => tx_set (tx_check tx r) (key r) (g i)
             | None => tx
             end) tx0 (seq s len)
    = tx0 ++ expected_tx (drop s results) (map g (seq s len)).
Proof.
  induction len as [|len IH]; intros s tx0 Hs.
  - rewrite drop_ge by lia. cbn. now rewrite app_nil_r.
  - destruct (lookup_lt_is_Some_2 results s) as [r Hr]; [lia|].
    cbn [seq foldl map]. rewrite Hr. rewrite IH by lia.
    rewrite (drop_S results r s Hr), expected_tx_cons.
    unfold tx_set, tx_check. now rewrite <- !app_assoc.
Qed.

(** The transaction of the source for any accepted answer: the new value of
    the [i]-th key is [updatedValues[i]]. *)
Lemma build_tx_indexed results (upd : JsValue) :
  build_tx results upd =
  expected_tx results (map (get_index upd) (seq 0 (length results))).
Proof.
  unfold build_tx.
  now rewrite (build_tx_from_fn results (get_index upd) (length results) 0%nat atomic).
Qed.

Lemma build_tx_checks (d : Db) results (upd : JsValue) :
  forallb (check_holds d) (build_tx results upd) = true <->
  (forall e, In e results -> snd <$> rows d !! key e = versionstamp e).
Proof.
  rewrite build_tx_indexed. apply expected_tx_checks.
  now rewrite length_map, length_seq.
Qed.

Lemma attempt_accepted keys f st :
  accepted (length keys) (tr_aborts (callback_run keys f st))
           (resolve (callback_run keys f st)) = true ->
  attempt keys f st =
  (if fst (kv_commit (db_at_commit st)
             (build_tx (entries_read keys st) (resolve (callback_run keys f st))))
   then Committed (resolve (callback_run keys f st))
   else Conflict (map value (entries_read keys st)),
   after_commit keys f st).
Proof.
  intros Hacc. apply accepted_true in Hacc as (Hab & Htr & Hlen).
  unfold after_commit, callback_run, entries_read, db_at_commit, db_at_read in *.
  unfold attempt. cbv zeta.
  rewrite Hab, Htr, kv_getMany_length, Hlen. cbn [negb].
  rewrite <- (app_assoc (trace st)). cbn [app].
  rewrite !deliver_rest, drop_drop.
  destruct (kv_commit _ _) as [[|] d3]; reflexivity.
Qed.

Lemma accepted_array keys f st newValues :
  tr_aborts (callback_run keys f st) = [] ->
  resolve (callback_run keys f st) = JArr newValues ->
  length newValues = length keys ->
  accepted (length keys) (tr_aborts (callback_run keys f st))
           (resolve (callback_run keys f st)) = true.
Proof.
  intros -> -> Hlen. unfold accepted. cbn. rewrite Hlen. now rewrite Z.eqb_refl.
Qed.

Lemma entries_read_In keys st e :
  In e (entries_read keys st) ->
  exists k, In k keys /\ e = kv_get (db_at_read st) k.
Proof.
  unfold entries_read, kv_getMany. intros H.
  apply in_map_iff in H as (k & <- & Hk). eauto.
Qed.

End AcceptedPass.

(** * Further properties *)

(** X1. Writes of other clients to keys outside the batch never cost a retry:
    when the batch delivered between the read and the commit writes to none
    of the keys, an accepted answer is committed in this very pass. Keys
    outside the batch keep what the other clients wrote, and distinct keys
    hold their new values. *)
Theorem foreign_writes_elsewhere_do_not_conflict
    {C : Type} fuel keys (f : Transform C) retryCount st newValues :
  tr_aborts (callback_run keys f st) = [] ->
  resolve (callback_run keys f st) = JArr newValues ->
  length newValues = length keys ->
  (forall k, In k keys -> writes_to k (commit_batch st) = []) ->
  setSafeAtomicMany (S fuel) keys f retryCount st =
    (Returned (mkMany true None (JArr newValues)), after_commit keys f st) /\
  reads (drop (length (trace st)) (trace (after_commit keys f st))) = 1%nat /\
  commits (drop (length (trace st)) (trace (after_commit keys f st))) = 1%nat /\
  (forall k, ~ In k keys ->
     rows (db (after_commit keys f st)) !! k = rows (db_at_commit st) !! k) /\
  (List.NoDup keys ->
   forall i k v, keys !! i = Some k -> newValues !! i = Some v ->
     rows (db (after_commit keys f st)) !! k = Some (v, S (clock (db_at_commit st)))).
Proof.
  intros Hab Hres Hlen Hquiet.
  pose proof (accepted_array keys f st newValues Hab Hres Hlen) as Hacc.
  assert (Hchecks : forallb (check_holds (db_at_commit st))
                      (build_tx (entries_read keys st) (JArr newValues)) = true).
  { apply build_tx_checks. intros e He.
    apply entries_read_In in He as (k & Hk & ->).
    rewrite kv_get_key, kv_get_versionstamp, db_at_commit_interfere.
    now rewrite interfere_untouched by auto. }
  assert (Hlen' : length newValues = length (entries_read keys st))
    by (unfold entries_read; now rewrite kv_getMany_length).
  assert (Hdb : db (after_commit keys f st) =
                mkDb (foldl (apply_mutation (S (clock (db_at_commit st))))
                            (rows (db_at_commit st))
                            (expected_tx (entries_read keys st) newValues))
                     (S (clock (db_at_commit st)))).
  { unfold after_commit. cbn [db]. rewrite Hres. unfold kv_commit. rewrite Hchecks.
    cbn [snd]. now rewrite build_tx_expected. }
  split; [|split; [|split; [|split]]].
  - rewrite setSafeAtomicMany_unfold, (attempt_accepted keys f st Hacc), Hres.
    unfold kv_commit at 1. rewrite Hchecks. reflexivity.
  - unfold after_commit. cbn [trace]. now rewrite drop_app_length.
  - unfold after_commit. cbn [trace]. now rewrite drop_app_length.
  - intros k Hk. rewrite Hdb. cbn [rows]. apply expected_tx_frame.
    unfold entries_read. now rewrite kv_getMany_keys.
  - intros Hnd i k v Hk Hv. rewrite Hdb. cbn [rows].
    pose proof (kv_getMany_lookup (db_at_read st) keys i k Hk) as He.
    rewrite <- (kv_get_key (db_at_read st) k).
    apply (expected_tx_sets _ (entries_read keys st) newValues i); auto.
    unfold entries_read. now rewrite kv_getMany_keys.
Qed.

Lemma foreign_writes_elsewhere_do_not_conflict_witness :
  let st := start (bank 100 50) bystander in
  tr_aborts (callback_run [kA; kB] transfer st) = [] /\
  resolve (callback_run [kA; kB] transfer st) = JArr [JNum 70; JNum 80] /\
  length [JNum 70; JNum 80] = length [kA; kB] /\
  (forall k, In k [kA; kB] -> writes_to k (commit_batch st) = []) /\
  setSafeAtomicMany 1 [kA; kB] transfer (Some 0) st =
    (Returned (mkMany true None (JArr [JNum 70; JNum 80])), after_commit [kA; kB] transfer st) /\
  rows (db (after_commit [kA; kB] transfer st)) !! kC = Some (JNum 7, 3%nat) /\
  rows (db (after_commit [kA; kB] transfer st)) !! kA = Some (JNum 70, 4%nat).
Proof.
  intros st.
  assert (H1 : tr_aborts (callback_run [kA; kB] transfer st) = []) by reflexivity.
  assert (H2 : resolve (callback_run [kA; kB] transfer st) = JArr [JNum 70; JNum 80])
    by (vm_compute; reflexivity).
  assert (H3 : length [JNum 70; JNum 80] = length [kA; kB]) by reflexivity.
  assert (H4 : forall k, In k [kA; kB] -> writes_to k (commit_batch st) = [])
    by (intros k [<-|[<-|[]]]; vm_compute; reflexivity).
  refine (conj H1 (conj H2 (conj H3 (conj H4 _)))).
  destruct (foreign_writes_elsewhere_do_not_conflict 0 [kA; kB] transfer (Some 0) st _
              H1 H2 H3 H4) as (Hrun & _ & _ & _ & _).
  split; [exact Hrun|]. split; vm_compute; reflexivity.
Defined.

Lemma interfere_last_set (d : Db) (batch : list Write) (k : Key) (v : JsValue) :
  last (writes_to k batch) = Some (k, Some v) ->
  fst <$> rows (interfere d batch) !! k = Some v.
Proof.
  unfold writes_to.
  induction batch as [|w batch IH] using rev_ind; [discriminate|].
  rewrite List.filter_app, interfere_snoc. cbn [List.filter].
  destruct (bool_decide (fst w = k)) eqn:Hw.
  - rewrite last_snoc. intros [= ->]. cbn [other_write rows].
    now rewrite lookup_insert_eq.
  - rewrite app_nil_r. intros Hlast. apply bool_decide_eq_false in Hw.
    rewrite other_write_other by assumption. now apply IH.
Qed.

(** X2. A foreign write that lands between the read and the commit is always
    detected: when the last thing the batch delivered before the commit does
    to one of the keys is a set, the commit of an accepted answer fails, the
    database keeps the foreign value, and the call gives up or starts over
    according to its retry count. *)
Theorem foreign_set_on_a_watched_key_is_detected
    {C : Type} fuel keys (f : Transform C) retryCount st newValues k v :
  db_wf (db st) ->
  tr_aborts (callback_run keys f st) = [] ->
  resolve (callback_run keys f st) = JArr newValues ->
  length newValues = length keys ->
  In k keys ->
  last (writes_to k (commit_batch st)) = Some (k, Some v) ->
  db (after_commit keys f st) = db_at_commit st /\
  fst <$> rows (db (after_commit keys f st)) !! k = Some v /\
  setSafeAtomicMany (S fuel) keys f retryCount st =
    if default 10 retryCount =? 0
    then (Returned (mkMany false (Some err_commit) (JArr (map value (entries_read keys st)))),
          after_commit keys f st)
    else setSafeAtomicMany fuel keys f (Some (default 10 retryCount - 1))
                           (after_commit keys f st).
Proof.
  intros Hwf Hab Hres Hlen Hk Hlast.
  pose proof (accepted_array keys f st newValues Hab Hres Hlen) as Hacc.
  assert (Hchecks : forallb (check_holds (db_at_commit st))
                      (build_tx (entries_read keys st) (JArr newValues)) = false).
  { apply not_true_is_false. intros Htrue.
    rewrite build_tx_checks in Htrue.
    specialize (Htrue (kv_get (db_at_read st) k)).
    rewrite kv_get_key, kv_get_versionstamp, db_at_commit_interfere in Htrue.
    eapply (interfere_set_changes_versionstamp (db_at_read st)); eauto.
    - now apply db_at_read_wf.
    - apply Htrue. unfold entries_read, kv_getMany. now apply in_map. }
  assert (Hdb : db (after_commit keys f st) = db_at_commit st).
  { unfold after_commit. cbn [db]. rewrite Hres. unfold kv_commit. now rewrite Hchecks. }
  split; [exact Hdb|]. split.
  - rewrite Hdb, db_at_commit_interfere. now apply interfere_last_set.
  - rewrite setSafeAtomicMany_unfold, (attempt_accepted keys f st Hacc), Hres.
    unfold kv_commit at 1. rewrite Hchecks. cbn [fst snd respond].
    destruct (default 10 retryCount =? 0); reflexivity.
Qed.

Lemma bank_wf (a b : Z) : db_wf (bank a b).
Proof.
  unfold db_wf, bank. cbn [rows clock].
  apply map_Forall_insert_2; [cbn; lia|].
  apply map_Forall_insert_2; [cbn; lia|].
  apply map_Forall_empty.
Qed.

Lemma foreign_set_on_a_watched_key_is_detected_witness :
  let st := start (bank 100 50) (rival 1) in
  db_wf (db st) /\
  tr_aborts (callback_run [kA; kB] transfer st) = [] /\
  resolve (callback_run [kA; kB] transfer st) = JArr [JNum 70; JNum 80] /\
  length [JNum 70; JNum 80] = length [kA; kB] /\
  In kA [kA; kB] /\
  last (writes_to kA (commit_batch st)) = Some (kA, Some (JNum 1000)) /\
  fst <$> rows (db (after_commit [kA; kB] transfer st)) !! kA = Some (JNum 1000) /\
  setSafeAtomicMany 1 [kA; kB] transfer (Some 0) st =
    (Returned (mkMany false (Some err_commit) (JArr [JNum 100; JNum 50])),
     after_commit [kA; kB] transfer st).
Proof.
  intros st.
  assert (H0 : db_wf (db st)) by apply bank_wf.
  assert (H1 : tr_aborts (callback_run [kA; kB] transfer st) = []) by reflexivity.
  assert (H2 : resolve (callback_run [kA; kB] transfer st) = JArr [JNum 70; JNum 80])
    by (vm_compute; reflexivity).
  assert (H3 : length [JNum 70; JNum 80] = length [kA; kB]) by reflexivity.
  assert (H4 : In kA [kA; kB]) by (left; reflexivity).
  assert (H5 : last (writes_to kA (commit_batch st)) = Some (kA, Some (JNum 1000)))
    by (vm_compute; reflexivity).
  refine (conj H0 (conj H1 (conj H2 (conj H3 (conj H4 (conj H5 _)))))).
  destruct (foreign_set_on_a_watched_key_is_detected 0 [kA; kB] transfer (Some 0) st _ _ _
              H0 H1 H2 H3 H4 H5) as (_ & Hv & Hrun).
  split; [exact Hv|]. exact Hrun.
Defined.

(** * A call that commits *)

Section Success.
Context {C : Type}.
Implicit Types (st : State C) (f : Transform C) (keys : list Key).

(** A commit that goes through found, for every key, the row that was read. *)
Lemma commit_true_same_entries (d1 : Db) (batch : list Write) keys (upd : JsValue) :
  db_wf d1 ->
  fst (kv_commit (interfere d1 batch) (build_tx (kv_getMany d1 keys) upd)) = true ->
  kv_getMany (interfere d1 batch) keys = kv_getMany d1 keys.
Proof.
  intros Hwf Hok. apply kv_getMany_ext. intros k Hk.
  apply interfere_same_versionstamp; [exact Hwf|].
  unfold kv_commit in Hok.
  destruct (forallb (check_holds (interfere d1 batch))
              (build_tx (kv_getMany d1 keys) upd)) eqn:Hchecks; [|discriminate].
  rewrite build_tx_checks in Hchecks.
  specialize (Hchecks (kv_get d1 k)).
  rewrite kv_get_key, kv_get_versionstamp in Hchecks.
  apply Hchecks. unfold kv_getMany. now apply in_map.
Qed.

Lemma setSafeAtomicMany_success fuel keys f retryCount st resp st' :
  setSafeAtomicMany fuel keys f retryCount st = (Returned resp, st') ->
  ok resp = true ->
  db_wf (db st) ->
  exists consumed c,
    others st = consumed ++ others st' /\
    values resp = resolve (f c (map value (kv_getMany (replay (db st) consumed) keys))) /\
    kv_commit (replay (db st) consumed)
              (build_tx (kv_getMany (replay (db st) consumed) keys) (values resp))
      = (true, db st') /\
    db_wf (db st').
Proof.
  revert retryCount st resp st'.
  induction fuel as [|fuel IH]; intros retryCount st resp st' H Hok Hwf; [discriminate|].
  rewrite setSafeAtomicMany_unfold in H.
  destruct (deliver_replay (db st) (others st)) as [Ho1 Hd1].
  destruct (deliver_replay (fst (deliver (db st) (others st)))
              (snd (deliver (db st) (others st)))) as [Ho2 Hd2].
  assert (Hwf1 : db_wf (fst (deliver (db st) (others st))))
    by (rewrite deliver_interfere; now apply interfere_wf).
  assert (Hwf2 : db_wf (fst (deliver (fst (deliver (db st) (others st)))
                                     (snd (deliver (db st) (others st))))))
    by (rewrite deliver_interfere; now apply interfere_wf).
  attempt_cases H; try discriminate.
  - injection H as <- _. discriminate.
  - injection H as <- <-. cbn [values db others].
    exists (take 1 (others st) ++ take 1 (snd (deliver (db st) (others st)))), (closure st).
    rewrite <- replay_app, <- Hd1, <- Hd2.
    assert (Hsame : kv_getMany (fst (deliver (fst (deliver (db st) (others st)))
                                            (snd (deliver (db st) (others st))))) keys
                    = kv_getMany (fst (deliver (db st) (others st))) keys).
    { rewrite (deliver_interfere (fst (deliver (db st) (others st)))).
      eapply commit_true_same_entries; [exact Hwf1|].
      rewrite <- deliver_interfere, Hcommit. reflexivity. }
    rewrite Hsame. repeat split.
    + rewrite <- app_assoc, <- Ho2. exact Ho1.
    + exact Hcommit.
    + pose proof (kv_commit_wf _ (build_tx (kv_getMany (fst (deliver (db st) (others st))) keys)
                    (resolve (f (closure st)
                       (map value (kv_getMany (fst (deliver (db st) (others st))) keys)))))
                    Hwf2) as Hwf3.
      now rewrite Hcommit in Hwf3.
  - apply kv_commit_false in Hcommit. subst d3.
    destruct (default 10 retryCount =? 0).
    + injection H as <- _. discriminate.
    + apply IH in H as (consumed & c & Hothers & Hval & Hdone & Hwf'); auto.
      cbn [db others] in Hothers, Hval, Hdone.
      exists (take 1 (others st) ++ take 1 (snd (deliver (db st) (others st))) ++ consumed), c.
      rewrite <- !replay_app, <- Hd1, <- Hd2.
      repeat split; auto.
      rewrite <- !app_assoc, <- Hothers, <- Ho2. exact Ho1.
Qed.

End Success.

(** X3. No lost update. When a call returns [ok: true], the values it
    committed were computed by the callback from exactly the values the
    database held at the moment of the commit: that database is the initial
    one with the foreign batches delivered so far, and the final database is
    that one with the transaction of the returned values applied. *)
Theorem committed_values_come_from_the_current_values
    {C : Type} fuel keys (f : Transform C) retryCount st resp st' :
  setSafeAtomicMany fuel keys f retryCount st = (Returned resp, st') ->
  ok resp = true ->
  db_wf (db st) ->
  exists consumed c,
    others st = consumed ++ others st' /\
    values resp = resolve (f c (map value (kv_getMany (replay (db st) consumed) keys))) /\
    kv_commit (replay (db st) consumed)
              (build_tx (kv_getMany (replay (db st) consumed) keys) (values resp))
      = (true, db st').
Proof.
  intros Hrun Hok Hwf.
  destruct (setSafeAtomicMany_success _ _ _ _ _ _ _ Hrun Hok Hwf)
    as (consumed & c & H1 & H2 & H3 & _).
  eauto.
Qed.

Lemma committed_values_come_from_the_current_values_witness :
  let st := start (bank 100 50) (rival 1) in
  let run := setSafeAtomicMany 3 [kA; kB] transfer (Some 2) st in
  let resp := mkMany true None (JArr [JNum 970; JNum 80]) in
  run = (Returned resp, snd run) /\
  ok resp = true /\
  db_wf (db st) /\
  exists consumed c,
    others st = consumed ++ others (snd run) /\
    values resp = resolve (transfer c (map value (kv_getMany (replay (db st) consumed) [kA; kB]))) /\
    kv_commit (replay (db st) consumed)
              (build_tx (kv_getMany (replay (db st) consumed) [kA; kB]) (values resp))
      = (true, db (snd run)).
Proof.
  intros st run resp.
  assert (H1 : run = (Returned resp, snd run)) by (vm_compute; reflexivity).
  assert (H2 : ok resp = true) by reflexivity.
  assert (H3 : db_wf (db st)) by apply bank_wf.
  refine (conj H1 (conj H2 (conj H3 _))).
  exact (committed_values_come_from_the_current_values _ _ _ _ _ _ _ H1 H2 H3).
Defined.

Lemma kv_get_row (d : Db) (k : Key) (v : JsValue) (vs : Versionstamp) :
  rows d !! k = Some (v, vs) -> kv_get d k = mkEntry k v (Some vs).
Proof. unfold kv_get. now intros ->. Qed.

Lemma identity_tx_sets (d : Db) (vs : Versionstamp) keys (k : Key) :
  forall r : gmap Key (JsValue * Versionstamp),
  In k keys ->
  foldl (apply_mutation vs) r
        (expected_tx (kv_getMany d keys) (map value (kv_getMany d keys))) !! k
  = Some (value (kv_get d k), vs).
Proof.
  induction keys as [|k0 keys IH]; intros r Hin; [destruct Hin|].
  cbn [kv_getMany map]. rewrite expected_tx_cons. cbn [foldl apply_mutation].
  fold (kv_getMany d keys).
  destruct (in_dec (decide_rel eq) k keys) as [Hk|Hk].
  - now apply IH.
  - destruct Hin as [->|Hin]; [|contradiction].
    rewrite expected_tx_frame by (now rewrite kv_getMany_keys).
    rewrite kv_get_key. apply lookup_insert_eq.
Qed.

(** X4. A callback that hands back the values it was given changes no value:
    after a successful call every key, in the batch or not, reads the value
    it had at the moment of the commit. The keys of the batch are written
    all the same: each gets the versionstamp of the commit, so a key that was
    missing exists afterwards, holding [null]. *)
Theorem identity_callback_keeps_values_but_rewrites_keys
    {C : Type} fuel keys (f : Transform C) retryCount st resp st' :
  (forall c vals, resolve (f c vals) = JArr vals) ->
  setSafeAtomicMany fuel keys f retryCount st = (Returned resp, st') ->
  ok resp = true ->
  db_wf (db st) ->
  exists consumed,
    others st = consumed ++ others st' /\
    (forall k, value (kv_get (db st') k) = value (kv_get (replay (db st) consumed) k)) /\
    (forall k, In k keys ->
       versionstamp (kv_get (db st') k) = Some (S (clock (replay (db st) consumed)))) /\
    (forall k, ~ In k keys -> rows (db st') !! k = rows (replay (db st) consumed) !! k).
Proof.
  intros Hid Hrun Hok Hwf.
  destruct (setSafeAtomicMany_success _ _ _ _ _ _ _ Hrun Hok Hwf)
    as (consumed & c & Hothers & Hval & Hdone & _).
  exists consumed. split; [exact Hothers|].
  set (d := replay (db st) consumed) in *.
  rewrite Hid in Hval. rewrite Hval in Hdone.
  rewrite build_tx_expected in Hdone by (now rewrite length_map).
  unfold kv_commit in Hdone.
  destruct (forallb (check_holds d) _); [|discriminate].
  injection Hdone as Hdb.
  assert (Hin : forall k, In k keys ->
            rows (db st') !! k = Some (value (kv_get d k), S (clock d))).
  { intros k Hk. rewrite <- Hdb. cbn [rows]. now apply identity_tx_sets. }
  assert (Hout : forall k, ~ In k keys -> rows (db st') !! k = rows d !! k).
  { intros k Hk. rewrite <- Hdb. cbn [rows].
    apply expected_tx_frame. now rewrite kv_getMany_keys. }
  split; [|split; [|exact Hout]].
  - intros k. destruct (in_dec (decide_rel eq) k keys) as [Hk|Hk].
    + now rewrite (kv_get_row _ _ _ _ (Hin k Hk)).
    + now rewrite (kv_get_ext d (db st') k (Hout k Hk)).
  - intros k Hk. now rewrite (kv_get_row _ _ _ _ (Hin k Hk)).
Qed.

Lemma identity_callback_keeps_values_but_rewrites_keys_witness :
  let st := start (bank 100 50) [] in
  let run := setSafeAtomicMany 1 [kA; kC] identity_callback (Some 0) st in
  let resp := mkMany true None (JArr [JNum 100; JNull]) in
  (forall c vals, resolve (identity_callback c vals) = JArr vals) /\
  run = (Returned resp, snd run) /\
  ok resp = true /\
  db_wf (db st) /\
  rows (db st) !! kC = None /\
  rows (db (snd run)) !! kC = Some (JNull, 3%nat) /\
  exists consumed,
    others st = consumed ++ others (snd run) /\
    (forall k, value (kv_get (db (snd run)) k) = value (kv_get (replay (db st) consumed) k)) /\
    (forall k, In k [kA; kC] ->
       versionstamp (kv_get (db (snd run)) k) = Some (S (clock (replay (db st) consumed)))) /\
    (forall k, ~ In k [kA; kC] ->
       rows (db (snd run)) !! k = rows (replay (db st) consumed) !! k).
Proof.
  intros st run resp.
  assert (H0 : forall c vals, resolve (identity_callback c vals) = JArr vals) by reflexivity.
  assert (H1 : run = (Returned resp, snd run)) by (vm_compute; reflexivity).
  assert (H2 : ok resp = true) by reflexivity.
  assert (H3 : db_wf (db st)) by apply bank_wf.
  refine (conj H0 (conj H1 (conj H2 (conj H3 _)))).
  split; [vm_compute; reflexivity|]. split; [vm_compute; reflexivity|].
  exact (identity_callback_keeps_values_but_rewrites_keys _ _ _ _ _ _ _ H0 H1 H2 H3).
Defined.

(** * More on the single-key operation *)

Section SingleMore.
Context {C : Type}.

Lemma single_key_no_throw fuel (k : Key) (fn : SingleTransform C) retryCount st msg st' :
  setSafeAtomicMany fuel [k] (wrap_single fn) retryCount st <> (Threw msg, st').
Proof.
  revert retryCount st.
  induction fuel as [|fuel IH]; intros retryCount st H; [discriminate|].
  rewrite setSafeAtomicMany_unfold in H.
  attempt_cases H; try discriminate.
  destruct (default 10 retryCount =? 0); [discriminate|].
  exact (IH _ _ H).
Qed.

End SingleMore.

(** X5. The single-key operation never throws: its wrapper always hands the
    multi-key operation a one-element array, so neither of the two errors of
    [setSafeAtomicMany] can be raised, whatever the callback returns. *)
Theorem single_key_never_throws
    {C : Type} fuel (k : Key) (fn : SingleTransform C) retryCount st msg :
  fst (setSafeAtomic fuel k fn retryCount st) <> Threw msg.
Proof.
  unfold setSafeAtomic, bind.
  destruct (setSafeAtomicMany fuel [k] (wrap_single fn) retryCount st)
    as [[resp|msg'|] st1] eqn:Hrun; cbn; try discriminate.
  exfalso. exact (single_key_no_throw _ _ _ _ _ _ _ Hrun).
Qed.

(** X6. The single-key operation stores whatever its callback returns,
    [undefined] included: when the callback does not abort and no other
    client writes to the key between the read and the commit, the call
    returns [{ok: true, error: null, value}] with the returned value, and the
    key holds it -- also when the key did not exist before. *)
Theorem single_key_stores_the_returned_value
    {C : Type} fuel (k : Key) (fn : SingleTransform C) retryCount st :
  sr_aborts (fn (closure st) (value (kv_get (db_at_read st) k))) = [] ->
  writes_to k (commit_batch st) = [] ->
  setSafeAtomic (S fuel) k fn retryCount st =
    (Returned (Single.mkSingle true None
                 (sr_return (fn (closure st) (value (kv_get (db_at_read st) k))))),
     after_commit [k] (wrap_single fn) st) /\
  rows (db (after_commit [k] (wrap_single fn) st)) !! k =
    Some (sr_return (fn (closure st) (value (kv_get (db_at_read st) k))),
          S (clock (db_at_commit st))).
Proof.
  intros Hab Hquiet.
  set (r := fn (closure st) (value (kv_get (db_at_read st) k))) in *.
  assert (Hres : resolve (callback_run [k] (wrap_single fn) st) = JArr [sr_return r])
    by reflexivity.
  assert (Hab' : tr_aborts (callback_run [k] (wrap_single fn) st) = []) by exact Hab.
  pose proof (accepted_array [k] (wrap_single fn) st [sr_return r] Hab' Hres eq_refl) as Hacc.
  assert (Hchecks : forallb (check_holds (db_at_commit st))
                      (build_tx (entries_read [k] st) (JArr [sr_return r])) = true).
  { apply build_tx_checks. intros e [<-|[]].
    rewrite kv_get_key, kv_get_versionstamp, db_at_commit_interfere.
    now rewrite interfere_untouched. }
  split.
  - unfold setSafeAtomic, bind.
    rewrite setSafeAtomicMany_unfold, (attempt_accepted [k] (wrap_single fn) st Hacc), Hres.
    unfold kv_commit at 1. rewrite Hchecks. reflexivity.
  - unfold after_commit. cbn [db]. rewrite Hres. unfold kv_commit. rewrite Hchecks.
    cbn [snd rows entries_read kv_getMany map build_tx length seq foldl lookup list_lookup].
    unfold tx_set, tx_check, atomic. cbn [app foldl apply_mutation get_index].
    rewrite kv_get_key. apply lookup_insert_eq.
Qed.

Lemma single_key_stores_the_returned_value_witness :
  let st := start (bank 100 50) bystander in
  sr_aborts (forgets_to_return (closure st) (value (kv_get (db_at_read st) kA))) = [] /\
  writes_to kA (commit_batch st) = [] /\
  fst (setSafeAtomic 1 kA forgets_to_return None st) =
    Returned (Single.mkSingle true None JUndefined) /\
  rows (db (after_commit [kA] (wrap_single forgets_to_return) st)) !! kA =
    Some (JUndefined, S (clock (db_at_commit st))).
Proof.
  intros st.
  assert (H1 : sr_aborts (forgets_to_return (closure st) (value (kv_get (db_at_read st) kA))) = [])
    by reflexivity.
  assert (H2 : writes_to kA (commit_batch st) = []) by (vm_compute; reflexivity).
  refine (conj H1 (conj H2 _)).
  destruct (single_key_stores_the_returned_value 0 kA forgets_to_return None st H1 H2)
    as [Hrun Hrow].
  split; [now rewrite Hrun|exact Hrow].
Defined.

Section ShapeMore.
Variable keys : list Key.

(** A call that returns a failure ended on a pass that was aborted or whose
    commit failed; the values it reports are those of the read of that pass,
    and none of its commits went through. *)
Lemma Shape_failed n t resp :
  Shape keys n t (Returned resp) ->
  ok resp = false ->
  exists pre es mutated aborts upd post,
    t = pre ++ [EvGetMany keys es; EvUpdate (map value es) mutated aborts upd] ++ post /\
    (post = [] \/ exists tx, post = [EvCommit tx false]) /\
    map key es = keys /\
    values resp = JArr (map value es).
Proof.
  intros Hshape. remember (Returned resp) as o eqn:Ho. revert Ho.
  induction Hshape as
    [ n | n es m a u Hk Ha | n es m a u Hk Ha Ht | n es m a u Hk Ha Ht Hl
    | n es m a u Hk Hacc | es m a u Hk Hacc | n es m a u t o Hk Hacc Hn Hshape IH ];
    intros Ho Hok; try discriminate.
  - injection Ho as <-. exists [], es, m, a, u, []. auto.
  - injection Ho as <-. discriminate.
  - injection Ho as <-. exists [], es, m, a, u, [EvCommit (build_tx es u) false].
    repeat split; eauto.
  - destruct (IH Ho Hok) as (pre & es' & m' & a' & u' & post & -> & Hpost & Hk' & Hv).
    exists (EvGetMany keys es :: EvUpdate (map value es) m a u ::
            EvCommit (build_tx es u) false :: pre), es', m', a', u', post.
    auto.
Qed.

(** The callback runs once in every pass, and every pass but possibly the
    last one reaches the commit -- whatever the retry count. *)
Lemma Shape_once_per_pass n t o :
  Shape keys n t o ->
  updates t = reads t /\ (commits t <= reads t <= S (commits t))%nat.
Proof.
  induction 1; unfold reads, commits, updates in *; cbn; lia.
Qed.

(** With a negative retry count a failed commit never ends the call. *)
Lemma Shape_negative n t o tx :
  Shape keys n t o ->
  n < 0 ->
  o <> Diverged ->
  last t <> Some (EvCommit tx false).
Proof.
  induction 1 as
    [ n | n es m a u Hk Ha | n es m a u Hk Ha Ht | n es m a u Hk Ha Ht Hl
    | n es m a u Hk Hacc | es m a u Hk Hacc | n es m a u t o Hk Hacc Hn Hshape IH ];
    intros Hneg Hdiv; try discriminate; try congruence; try lia.
  destruct t as [|e t].
  { apply Shape_nil in Hshape. congruence. }
  change (last (e :: t) <> Some (EvCommit tx false)).
  apply IH; [lia|exact Hdiv].
Qed.

End ShapeMore.

(** X7. When the single-key operation returns a failure -- the callback
    aborted, or the retries ran out -- the [value] it reports is the value
    read for the key in the last pass, and the database holds only what
    other clients wrote meanwhile. *)
Theorem single_key_failure_reports_the_value_read
    {C : Type} fuel (k : Key) (fn : SingleTransform C) retryCount st resp st' t :
  setSafeAtomic fuel k fn retryCount st = (Returned resp, st') ->
  Single.ok resp = false ->
  trace st' = trace st ++ t ->
  exists pre e mutated aborts upd post consumed,
    t = pre ++ [EvGetMany [k] [e]; EvUpdate [value e] mutated aborts upd] ++ post /\
    (post = [] \/ exists tx, post = [EvCommit tx false]) /\
    key e = k /\
    Single.value resp = value e /\
    others st = consumed ++ others st' /\
    db st' = replay (db st) consumed.
Proof.
  unfold setSafeAtomic, bind, ret. intros Hrun Hok Ht.
  destruct (setSafeAtomicMany fuel [k] (wrap_single fn) retryCount st)
    as [[many|msg|] st1] eqn:Hmany; try discriminate.
  injection Hrun as <- <-. cbn [Single.ok Single.value] in *.
  destruct (setSafeAtomicMany_shape _ _ _ _ _ _ _ Hmany) as (t' & Ht' & Hshape).
  rewrite Ht in Ht'. apply app_inv_head in Ht'. subst t'.
  destruct (Shape_failed _ _ _ _ Hshape Hok)
    as (pre & es & m & a & u & post & -> & Hpost & Hk & Hv).
  destruct es as [|e [|e' es]]; try discriminate.
  injection Hk as Hk.
  destruct (setSafeAtomicMany_frame _ _ _ _ _ _ _ Hmany) as (consumed & Hothers & Hdb).
  exists pre, e, m, a, u, post, consumed.
  repeat split; auto.
  - now rewrite Hv.
  - destruct Hdb as [[v Hv']|Hdb]; [|exact Hdb].
    injection Hv' as ->. discriminate.
Qed.

Lemma single_key_failure_reports_the_value_read_witness :
  let st := start (bank 100 50) (rival 1) in
  let run := setSafeAtomic 11 kA declines None st in
  let resp := Single.mkSingle false (Some "no") (JNum 100) in
  run = (Returned resp, snd run) /\
  Single.ok resp = false /\
  trace (snd run) = trace st ++ trace (snd run) /\
  exists pre e mutated aborts upd post consumed,
    trace (snd run) =
      pre ++ [EvGetMany [kA] [e]; EvUpdate [value e] mutated aborts upd] ++ post /\
    (post = [] \/ exists tx, post = [EvCommit tx false]) /\
    key e = kA /\
    Single.value resp = value e /\
    others st = consumed ++ others (snd run) /\
    db (snd run) = replay (db st) consumed.
Proof.
  intros st run resp.
  assert (H1 : run = (Returned resp, snd run)) by (vm_compute; reflexivity).
  assert (H2 : Single.ok resp = false) by reflexivity.
  assert (H3 : trace (snd run) = trace st ++ trace (snd run)) by reflexivity.
  refine (conj H1 (conj H2 (conj H3 _))).
  exact (single_key_failure_reports_the_value_read _ _ _ _ _ _ _ _ H1 H2 H3).
Defined.

(** X8. A negative retry count never gives up: no failed commit ends the
    call, each one is followed by another read of all the keys. The call
    ends only by a commit that goes through, an abort or a thrown error. *)
Theorem negative_retry_count_never_gives_up
    {C : Type} fuel keys (f : Transform C) retryCount st o st' t :
  default 10 retryCount < 0 ->
  setSafeAtomicMany fuel keys f retryCount st = (o, st') ->
  trace st' = trace st ++ t ->
  o <> Diverged ->
  (forall tx, last t <> Some (EvCommit tx false)) /\
  (forall pre tx post,
     t = pre ++ EvCommit tx false :: post ->
     exists es post', post = EvGetMany keys es :: post').
Proof.
  intros Hneg Hrun Ht Hdiv.
  destruct (setSafeAtomicMany_shape _ _ _ _ _ _ _ Hrun) as (t' & Ht' & Hshape).
  rewrite Ht in Ht'. apply app_inv_head in Ht'. subst t'.
  assert (Hlast : forall tx, last t <> Some (EvCommit tx false))
    by (intros tx; exact (Shape_negative keys _ t o tx Hshape Hneg Hdiv)).
  split; [exact Hlast|].
  intros pre tx post Heq.
  destruct (Shape_commit_after_read _ _ _ _ _ _ _ _ Hshape Heq)
    as (_ & _ & _ & _ & _ & _ & _ & _ & [->|(es & post' & _ & ->)]); [|eauto].
  exfalso. apply (Hlast tx). rewrite Heq. apply last_snoc.
Qed.

Lemma negative_retry_count_never_gives_up_witness :
  let st := start (bank 100 50) (rival 3) in
  let run := setSafeAtomicMany 5 [kA; kB] transfer (Some (-1)) st in
  default 10 (Some (-1)) < 0 /\
  run = (fst run, snd run) /\
  trace (snd run) = trace st ++ trace (snd run) /\
  fst run <> Diverged /\
  failures (trace (snd run)) = 3%nat /\
  fst run = Returned (mkMany true None (JArr [JNum 970; JNum 80])) /\
  (forall tx, last (trace (snd run)) <> Some (EvCommit tx false)).
Proof.
  intros st run.
  assert (H1 : default 10 (Some (-1)) < 0) by (cbn; lia).
  assert (H2 : run = (fst run, snd run)) by (vm_compute; reflexivity).
  assert (H3 : trace (snd run) = trace st ++ trace (snd run)) by reflexivity.
  assert (H4 : fst run <> Diverged) by (vm_compute; discriminate).
  refine (conj H1 (conj H2 (conj H3 (conj H4 _)))).
  split; [vm_compute; reflexivity|]. split; [vm_compute; reflexivity|].
  exact (proj1 (negative_retry_count_never_gives_up _ _ _ _ _ _ _ _ H1 H2 H3 H4)).
Defined.

(** X9. In every call, whatever its retry count and however it ends, the
    callback is invoked exactly once per read, and every read but possibly
    the last is followed by a commit. *)
Theorem callback_runs_once_per_read
    {C : Type} fuel keys (f : Transform C) retryCount st o st' t :
  setSafeAtomicMany fuel keys f retryCount st = (o, st') ->
  trace st' = trace st ++ t ->
  updates t = reads t /\ (commits t <= reads t <= S (commits t))%nat.
Proof.
  intros Hrun Ht.
  destruct (setSafeAtomicMany_shape _ _ _ _ _ _ _ Hrun) as (t' & Ht' & Hshape).
  rewrite Ht in Ht'. apply app_inv_head in Ht'. subst t'.
  exact (Shape_once_per_pass _ _ _ _ Hshape).
Qed.

Lemma callback_runs_once_per_read_witness :
  let st := start (bank 100 50) (rival 2) in
  let run := setSafeAtomicMany 11 [kA; kB] transfer None st in
  run = (fst run, snd run) /\
  trace (snd run) = trace st ++ trace (snd run) /\
  reads (trace (snd run)) = 3%nat /\
  updates (trace (snd run)) = reads (trace (snd run)) /\
  (commits (trace (snd run)) <= reads (trace (snd run)) <= S (commits (trace (snd run))))%nat.
Proof.
  intros st run.
  assert (H1 : run = (fst run, snd run)) by (vm_compute; reflexivity).
  assert (H2 : trace (snd run) = trace st ++ trace (snd run)) by reflexivity.
  refine (conj H1 (conj H2 _)).
  split; [vm_compute; reflexivity|].
  exact (callback_runs_once_per_read _ _ _ _ _ _ _ _ H1 H2).
Defined.

(** X10. With an empty batch of keys there is nothing to check: when the
    callback answers the empty array, the call commits an empty transaction
    in its first pass and returns [ok: true], whatever other clients write
    meanwhile, and no row of the database changes. *)
Theorem empty_batch_always_commits
    {C : Type} fuel (f : Transform C) retryCount st :
  tr_aborts (callback_run [] f st) = [] ->
  resolve (callback_run [] f st) = JArr [] ->
  setSafeAtomicMany (S fuel) [] f retryCount st =
    (Returned (mkMany true None (JArr [])), after_commit [] f st) /\
  last (trace (after_commit [] f st)) = Some (EvCommit [] true) /\
  rows (db (after_commit [] f st)) = rows (db_at_commit st).
Proof.
  intros Hab Hres.
  pose proof (accepted_array [] f st [] Hab Hres eq_refl) as Hacc.
  split; [|split].
  - rewrite setSafeAtomicMany_unfold, (attempt_accepted [] f st Hacc), Hres.
    reflexivity.
  - unfold after_commit. cbn [trace]. rewrite Hres, last_app. reflexivity.
  - unfold after_commit. cbn [db]. rewrite Hres. reflexivity.
Qed.

Lemma empty_batch_always_commits_witness :
  let st := start (bank 100 50) (rival 1) in
  tr_aborts (callback_run [] identity_callback st) = [] /\
  resolve (callback_run [] identity_callback st) = JArr [] /\
  setSafeAtomicMany 1 [] identity_callback (Some 0) st =
    (Returned (mkMany true None (JArr [])), after_commit [] identity_callback st) /\
  rows (db (after_commit [] identity_callback st)) = rows (db_at_commit st).
Proof.
  intros st.
  assert (H1 : tr_aborts (callback_run [] identity_callback st) = []) by reflexivity.
  assert (H2 : resolve (callback_run [] identity_callback st) = JArr []) by reflexivity.
  refine (conj H1 (conj H2 _)).
  destruct (empty_batch_always_commits 0 identity_callback (Some 0) st H1 H2)
    as (Hrun & _ & Hrows).
  exact (conj Hrun Hrows).
Defined.

Lemma expected_tx_sets_last (vs : Versionstamp) results newValues i e v :
  forall r : gmap Key (JsValue * Versionstamp),
  results !! i = Some e ->
  newValues !! i = Some v ->
  (forall j e', (i < j)%nat -> results !! j = Some e' -> key e' <> key e) ->
  foldl (apply_mutation vs) r (expected_tx results newValues) !! key e = Some (v, vs).
Proof.
  revert newValues i.
  induction results as [|e0 results IH]; intros [|v0 newValues] i r He Hv Hlater;
    try discriminate.
  rewrite expected_tx_cons. cbn [foldl apply_mutation].
  destruct i as [|i].
  - injection He as <-. injection Hv as <-.
    rewrite expected_tx_frame; [apply lookup_insert_eq|].
    intros Hin. apply in_map_iff in Hin as (e' & Hkey & Hin').
    apply list_elem_of_In, list_elem_of_lookup in Hin' as [j Hj].
    apply (Hlater (S j) e'); [lia|exact Hj|exact Hkey].
  - apply (IH newValues i); auto.
    intros j e' Hlt Hj. apply (Hlater (S j) e'); [lia|exact Hj].
Qed.

(** X11. A key may occur more than once in the batch: the sets are queued in
    the order of the keys, so when the commit goes through, the key holds the
    new value given for its last occurrence. *)
Theorem repeated_key_keeps_the_last_value
    {C : Type} fuel keys (f : Transform C) retryCount st newValues i k v :
  tr_aborts (callback_run keys f st) = [] ->
  resolve (callback_run keys f st) = JArr newValues ->
  length newValues = length keys ->
  fst (kv_commit (db_at_commit st) (build_tx (entries_read keys st) (JArr newValues))) = true ->
  keys !! i = Some k ->
  newValues !! i = Some v ->
  (forall j, (i < j)%nat -> keys !! j <> Some k) ->
  setSafeAtomicMany (S fuel) keys f retryCount st =
    (Returned (mkMany true None (JArr newValues)), after_commit keys f st) /\
  rows (db (after_commit keys f st)) !! k = Some (v, S (clock (db_at_commit st))).
Proof.
  intros Hab Hres Hlen Hok Hk Hv Hlast.
  pose proof (accepted_array keys f st newValues Hab Hres Hlen) as Hacc.
  split.
  - rewrite setSafeAtomicMany_unfold, (attempt_accepted keys f st Hacc), Hres, Hok.
    reflexivity.
  - unfold after_commit. cbn [db]. rewrite Hres.
    unfold kv_commit in *.
    destruct (forallb (check_holds (db_at_commit st))
                (build_tx (entries_read keys st) (JArr newValues))); [|discriminate].
    cbn [snd rows].
    rewrite build_tx_expected
      by (unfold entries_read; now rewrite kv_getMany_length).
    pose proof (kv_getMany_lookup (db_at_read st) keys i k Hk) as He.
    rewrite <- (kv_get_key (db_at_read st) k).
    apply (expected_tx_sets_last _ (entries_read keys st) newValues i); auto.
    intros j e' Hlt Hj Hkey. rewrite kv_get_key in Hkey.
    apply (Hlast j Hlt).
    unfold entries_read, kv_getMany in Hj. rewrite list_lookup_fmap in Hj.
    destruct (keys !! j) as [k'|]; [|discriminate].
    injection Hj as <-. now rewrite kv_get_key in Hkey; subst.
Qed.

Lemma repeated_key_keeps_the_last_value_witness :
  let st := start (bank 100 50) [] in
  tr_aborts (callback_run [kA; kA] transfer st) = [] /\
  resolve (callback_run [kA; kA] transfer st) = JArr [JNum 70; JNum 130] /\
  length [JNum 70; JNum 130] = length [kA; kA] /\
  fst (kv_commit (db_at_commit st)
         (build_tx (entries_read [kA; kA] st) (JArr [JNum 70; JNum 130]))) = true /\
  [kA; kA] !! 1%nat = Some kA /\
  [JNum 70; JNum 130] !! 1%nat = Some (JNum 130) /\
  (forall j, (1 < j)%nat -> [kA; kA] !! j <> Some kA) /\
  rows (db (after_commit [kA; kA] transfer st)) !! kA
    = Some (JNum 130, S (clock (db_at_commit st))).
Proof.
  intros st.
  assert (H1 : tr_aborts (callback_run [kA; kA] transfer st) = []) by reflexivity.
  assert (H2 : resolve (callback_run [kA; kA] transfer st) = JArr [JNum 70; JNum 130])
    by (vm_compute; reflexivity).
  assert (H3 : length [JNum 70; JNum 130] = length [kA; kA]) by reflexivity.
  assert (H4 : fst (kv_commit (db_at_commit st)
                      (build_tx (entries_read [kA; kA] st) (JArr [JNum 70; JNum 130]))) = true)
    by (vm_compute; reflexivity).
  assert (H5 : [kA; kA] !! 1%nat = Some kA) by reflexivity.
  assert (H6 : [JNum 70; JNum 130] !! 1%nat = Some (JNum 130)) by reflexivity.
  assert (H7 : forall j, (1 < j)%nat -> [kA; kA] !! j <> Some kA).
  { intros [|[|j]] Hj; [lia|lia|discriminate]. }
  refine (conj H1 (conj H2 (conj H3 (conj H4 (conj H5 (conj H6 (conj H7 _))))))).
  exact (proj2 (repeated_key_keeps_the_last_value 0 [kA; kA] transfer None st _ 1%nat kA _
                  H1 H2 H3 H4 H5 H6 H7)).
Defined.

(** * [withSafeAtomics] *)

Section Patch.
Context {V : Type} `{EqDecision V}.
Implicit Types (o : JsObject V) (v : V) (name : string).

Lemma defineProperty_defined o name v o' :
  defineProperty o name v = (true, o') ->
  exists w e c, props o' !! name = Some (DataProp v w e c).
Proof.
  unfold defineProperty.
  destruct (props o !! name) as [[cur w e c|e c]|] eqn:Hcur.
  - destruct (c || w).
    + intros [= <-]. cbn [props]. rewrite lookup_insert_eq. eauto.
    + destruct (decide (v = cur)) as [->|]; [|discriminate].
      intros [= <-]. eauto.
  - destruct c; [|discriminate]. intros [= <-]. cbn [props].
    rewrite lookup_insert_eq. eauto.
  - destruct (extensible o); [|discriminate]. intros [= <-]. cbn [props].
    rewrite lookup_insert_eq. eauto.
Qed.

Lemma defineProperty_other o name v o' name' b :
  defineProperty o name v = (b, o') ->
  name <> name' ->
  props o' !! name' = props o !! name' /\ extensible o' = extensible o.
Proof.
  unfold defineProperty. intros Hdef Hne.
  destruct (props o !! name) as [[cur w e c|e c]|].
  - destruct (c || w).
    + injection Hdef as _ <-. cbn. now rewrite lookup_insert_ne.
    + destruct (decide (v = cur)); injection Hdef as _ <-; auto.
  - destruct c; injection Hdef as _ <-; cbn; [now rewrite lookup_insert_ne|auto].
  - destruct (extensible o) eqn:Hext; injection Hdef as _ <-; cbn;
      [now rewrite lookup_insert_ne|auto].
Qed.

Lemma defineProperty_failed o name v o' :
  defineProperty o name v = (false, o') -> o' = o.
Proof.
  unfold defineProperty.
  destruct (props o !! name) as [[cur w e c|e c]|].
  - destruct (c || w); [discriminate|]. destruct (decide (v = cur)); [discriminate|].
    now intros [= <-].
  - destruct c; [discriminate|]. now intros [= <-].
  - destruct (extensible o); [discriminate|]. now intros [= <-].
Qed.

(** Defining a property with the value it already has changes nothing. *)
Lemma defineProperty_stable o name v w e c :
  props o !! name = Some (DataProp v w e c) ->
  defineProperty o name v = (true, o).
Proof.
  intros Hcur. unfold defineProperty. rewrite Hcur.
  destruct (c || w).
  - rewrite insert_id by exact Hcur. now destruct o.
  - now rewrite decide_True.
Qed.

Lemma method_names_differ : "setSafeAtomicMany" <> "setSafeAtomic".
Proof. discriminate. Qed.

End Patch.

(** X12. On an extensible instance that has no own property of either name,
    [withSafeAtomics] succeeds: both methods are installed as data
    properties that are not writable, not enumerable and not configurable,
    and every other property of the instance is as it was. *)
Theorem withSafeAtomics_installs_both_methods
    {V : Type} `{EqDecision V} (fn_many fn_single : V) (o : JsObject V) :
  extensible o = true ->
  props o !! "setSafeAtomicMany" = None ->
  props o !! "setSafeAtomic" = None ->
  exists o',
    withSafeAtomics fn_many fn_single o = (true, o') /\
    props o' !! "setSafeAtomicMany" = Some (DataProp fn_many false false false) /\
    props o' !! "setSafeAtomic" = Some (DataProp fn_single false false false) /\
    (forall name, name <> "setSafeAtomicMany" -> name <> "setSafeAtomic" ->
       props o' !! name = props o !! name) /\
    extensible o' = true.
Proof.
  intros Hext Hmany Hsingle.
  unfold withSafeAtomics, defineProperty. rewrite Hmany, Hext. cbn [fst snd props extensible].
  rewrite lookup_insert_ne by exact method_names_differ. rewrite Hsingle.
  eexists. split; [reflexivity|]. cbn [props extensible].
  split; [|split; [|split; [|reflexivity]]].
  - rewrite lookup_insert_ne by (intros Heq; now apply method_names_differ).
    apply lookup_insert_eq.
  - apply lookup_insert_eq.
  - intros name H1 H2. now rewrite !lookup_insert_ne by congruence.
Qed.

Lemma withSafeAtomics_installs_both_methods_witness :
  extensible plain_instance = true /\
  props plain_instance !! "setSafeAtomicMany" = None /\
  props plain_instance !! "setSafeAtomic" = None /\
  exists o',
    withSafeAtomics "many" "single" plain_instance = (true, o') /\
    props o' !! "setSafeAtomicMany" = Some (DataProp "many" false false false) /\
    props o' !! "setSafeAtomic" = Some (DataProp "single" false false false) /\
    (forall name, name <> "setSafeAtomicMany" -> name <> "setSafeAtomic" ->
       props o' !! name = props plain_instance !! name) /\
    extensible o' = true.
Proof.
  assert (H1 : extensible plain_instance = true) by reflexivity.
  assert (H2 : props plain_instance !! "setSafeAtomicMany" = None) by (vm_compute; reflexivity).
  assert (H3 : props plain_instance !! "setSafeAtomic" = None) by (vm_compute; reflexivity).
  refine (conj H1 (conj H2 (conj H3 _))).
  exact (withSafeAtomics_installs_both_methods "many" "single" plain_instance H1 H2 H3).
Defined.

(** X13. [withSafeAtomics] is idempotent: patching an instance that was
    patched already succeeds again and changes nothing, whatever properties
    the instance had to begin with. *)
Theorem withSafeAtomics_twice_is_once
    {V : Type} `{EqDecision V} (fn_many fn_single : V) (o o' : JsObject V) :
  withSafeAtomics fn_many fn_single o = (true, o') ->
  withSafeAtomics fn_many fn_single o' = (true, o').
Proof.
  unfold withSafeAtomics.
  destruct (defineProperty o "setSafeAtomicMany" fn_many) as [[|] o1] eqn:H1;
    cbn [fst snd]; [|discriminate].
  intros H2.
  destruct (defineProperty_defined _ _ _ _ H1) as (w1 & e1 & c1 & Hmany).
  destruct (defineProperty_defined _ _ _ _ H2) as (w2 & e2 & c2 & Hsingle).
  destruct (defineProperty_other _ _ _ _ "setSafeAtomicMany" _ H2) as [Hkeep _].
  { intros Heq. now apply method_names_differ. }
  rewrite Hmany in Hkeep.
  rewrite (defineProperty_stable o' _ _ _ _ _ Hkeep). cbn [fst snd].
  exact (defineProperty_stable o' _ _ _ _ _ Hsingle).
Qed.

Lemma withSafeAtomics_twice_is_once_witness :
  let o' := snd (withSafeAtomics "many" "single" plain_instance) in
  withSafeAtomics "many" "single" plain_instance = (true, o') /\
  withSafeAtomics "many" "single" o' = (true, o').
Proof.
  intros o'.
  assert (H1 : withSafeAtomics "many" "single" plain_instance = (true, o')) by reflexivity.
  exact (conj H1 (withSafeAtomics_twice_is_once "many" "single" plain_instance o' H1)).
Defined.

Lemma withSafeAtomics_fresh
    {V : Type} `{EqDecision V} (fn_many fn_single : V) (o : JsObject V) :
  extensible o = true ->
  props o !! "setSafeAtomicMany" = None ->
  props o !! "setSafeAtomic" = None ->
  withSafeAtomics fn_many fn_single o =
    (true,
     mkObject (<["setSafeAtomic" := DataProp fn_single false false false]>
                 (<["setSafeAtomicMany" := DataProp fn_many false false false]> (props o)))
              true).
Proof.
  intros Hext Hmany Hsingle.
  unfold withSafeAtomics, defineProperty. rewrite Hmany, Hext. cbn [fst snd props extensible].
  rewrite lookup_insert_ne by exact method_names_differ. now rewrite Hsingle.
Qed.

(** X14. Once installed on a fresh instance, the methods cannot be replaced
    through [Object.defineProperty]: defining either name with another value
    is refused and leaves the instance as it is. *)
Theorem installed_methods_cannot_be_redefined
    {V : Type} `{EqDecision V} (fn_many fn_single other : V) (o o' : JsObject V) :
  extensible o = true ->
  props o !! "setSafeAtomicMany" = None ->
  props o !! "setSafeAtomic" = None ->
  withSafeAtomics fn_many fn_single o = (true, o') ->
  (other <> fn_many -> defineProperty o' "setSafeAtomicMany" other = (false, o')) /\
  (other <> fn_single -> defineProperty o' "setSafeAtomic" other = (false, o')).
Proof.
  intros Hext Hmany Hsingle Hrun.
  rewrite (withSafeAtomics_fresh fn_many fn_single o Hext Hmany Hsingle) in Hrun.
  injection Hrun as <-.
  split; intros Hne; unfold defineProperty; cbn [props].
  - rewrite lookup_insert_ne by (intros Heq; now apply method_names_differ).
    rewrite lookup_insert_eq. cbn [orb]. now rewrite decide_False.
  - rewrite lookup_insert_eq. cbn [orb]. now rewrite decide_False.
Qed.

Lemma installed_methods_cannot_be_redefined_witness :
  let o' := snd (withSafeAtomics "many" "single" plain_instance) in
  extensible plain_instance = true /\
  props plain_instance !! "setSafeAtomicMany" = None /\
  props plain_instance !! "setSafeAtomic" = None /\
  withSafeAtomics "many" "single" plain_instance = (true, o') /\
  "hijack" <> "many" /\
  defineProperty o' "setSafeAtomicMany" "hijack" = (false, o').
Proof.
  intros o'.
  assert (H1 : extensible plain_instance = true) by reflexivity.
  assert (H2 : props plain_instance !! "setSafeAtomicMany" = None) by (vm_compute; reflexivity).
  assert (H3 : props plain_instance !! "setSafeAtomic" = None) by (vm_compute; reflexivity).
  assert (H4 : withSafeAtomics "many" "single" plain_instance = (true, o')) by reflexivity.
  assert (H5 : "hijack" <> "many") by discriminate.
  refine (conj H1 (conj H2 (conj H3 (conj H4 (conj H5 _))))).
  exact (proj1 (installed_methods_cannot_be_redefined "many" "single" "hijack"
                  plain_instance o' H1 H2 H3 H4) H5).
Defined.
